(** * The message buses of [horizons/messaging/messagebus.py]

    A shallow embedding of the three bus classes ([MessageBus],
    [QueuingMessageBus], [SimpleMessageBus]) and the properties their
    description states about them.

    Python objects are mutable and callbacks are arbitrary code, so every
    method is a computation in a small monad that threads the bus object,
    may raise, and records which callback was invoked with which argument.
    Loops that run callbacks take fuel, since a callback may keep feeding
    the very collection the loop walks over. *)

From stdpp Require Import base option list gmap strings.
From Stdlib Require Import ZArith Lia.


(** ** Python values seen by the buses *)

(** A message class, the identity of a sender object and the identity of a
    callable: the buses only ever compare them for equality and use them as
    dictionary keys. *)
Abbreviation MessageType := nat (only parsing).
Abbreviation Instance := nat (only parsing).
Abbreviation Callback := nat (only parsing).

(** Modelled from the spec: the [Message] class lives outside this file of
    the repository.  A message is "an event value carrying a type
    discriminator and an optional sender reference"; the rest of its
    content is opaque to the bus, so one number stands for the identity
    of the message object.  [None] as a sender is one more object
    identity. *)
Record Message : Type := mkMessage {
  msg_class : MessageType;   (* message.__class__ *)
  sender : Instance;         (* message.sender *)
  ident : nat
}.

#[global] Instance Message_eq_dec : EqDecision Message.
Proof. solve_decision. Defined.

(** The objects that meet in the comparison made by
    [QueuingMessageBus.subscribe_locally].  Python's default [==] is
    object identity, and a class, a message and a sender are objects of
    different kinds: a message is never equal to a class (the description
    calls the two sides of that comparison "mismatched tuple shapes"). *)
Inductive pyobj : Type :=
  | PyClass (c : MessageType)
  | PyMessage (m : Message)
  | PyInstance (i : Instance).

Definition pyobj_eqb (a b : pyobj) : bool :=
  match a, b with
  | PyClass c, PyClass c' => bool_decide (c = c')
  | PyMessage m, PyMessage m' => bool_decide (m = m')
  | PyInstance i, PyInstance i' => bool_decide (i = i')
  | _, _ => false
  end.

(** [(a1, a2) == (b1, b2)] on tuples: componentwise, left to right. *)
Definition tuple2_eqb (a b : pyobj * pyobj) : bool :=
  pyobj_eqb a.1 b.1 && pyobj_eqb a.2 b.2.

(** The exceptions the buses can raise themselves, and one constructor for
    whatever a callback raises. *)
Inductive exn : Type :=
  | AssertionError
  | ValueError
  | TypeError
  | PyException
  | RuntimeError
  | IndexError
  | CallbackError (code : nat).

(** ** Computations on a mutable object *)

Inductive res (A : Type) : Type :=
  | Ok (a : A)
  | Raise (e : exn)
  | OutOfFuel.
Arguments Ok {A} a.
Arguments Raise {A} e.
Arguments OutOfFuel {A}.

(** What a method call leaves behind: how it ended, the object as it is
    then (mutations made before an exception stay), and the callback
    invocations it made, oldest first. *)
Record outcome (E B A : Type) : Type := Outcome {
  result : res A;
  state : B;
  calls : list E
}.
Arguments Outcome {E B A} result state calls.
Arguments result {E B A} o.
Arguments state {E B A} o.
Arguments calls {E B A} o.

Definition M (E B A : Type) : Type := B -> outcome E B A.

Section Monad.
Context {E B : Type}.

Definition ret {A} (a : A) : M E B A := fun b => Outcome (Ok a) b [].

Definition bind {A A'} (m : M E B A) (f : A -> M E B A') : M E B A' :=
  fun b =>
    let o := m b in
    match result o with
    | Ok a =>
        let o' := f a (state o) in
        Outcome (result o') (state o') (calls o ++ calls o')
    | Raise e => Outcome (Raise e) (state o) (calls o)
    | OutOfFuel => Outcome OutOfFuel (state o) (calls o)
    end.

Definition raise {A} (e : exn) : M E B A := fun b => Outcome (Raise e) b [].
Definition out_of_fuel {A} : M E B A := fun b => Outcome OutOfFuel b [].
Definition gets {A} (f : B -> A) : M E B A := fun b => Outcome (Ok (f b)) b [].
Definition modify (f : B -> B) : M E B unit := fun b => Outcome (Ok tt) (f b) [].
Definition tell (e : E) : M E B unit := fun b => Outcome (Ok tt) b [e].
End Monad.

Declare Scope bus_scope.
Delimit Scope bus_scope with bus.
Notation "x <- m ;; f" := (bind m (fun x => f))
  (at level 100, m at next level, right associativity) : bus_scope.
Notation "m ;; f" := (bind m (fun _ => f))
  (at level 100, right associativity) : bus_scope.
Open Scope bus_scope.

(** ** Python containers *)

Section Containers.
Context {A : Type} `{EqDecision A}.

(** [x in l] *)
Definition py_in (x : A) (l : list A) : bool := bool_decide (x ∈ l).

(** [l.remove(x)]: drops the first element equal to [x]; [None] stands
    for the [ValueError] raised when there is none. *)
Fixpoint py_remove (x : A) (l : list A) : option (list A) :=
  match l with
  | [] => None
  | y :: l' =>
      if decide (x = y) then Some l'
      else match py_remove x l' with
           | Some r => Some (y :: r)
           | None => None
           end
  end.

(** [l] without its first element equal to [x]. *)
Fixpoint remove_first (x : A) (l : list A) : list A :=
  match l with
  | [] => []
  | y :: l' => if decide (x = y) then l' else y :: remove_first x l'
  end.

(** How many times [x] occurs in [l]. *)
Definition occurrences (x : A) (l : list A) : nat :=
  length (filter (fun y => y = x) l).
End Containers.

Section DefaultDict.
Context {K : Type} `{Countable K} {V : Type}.

(** The list (or deque) bound to [k], the empty one when [k] is
    missing. *)
Definition dd_peek (k : K) (d : gmap K (list V)) : list V :=
  default [] (d !! k).

(** The dictionary after [d[k]] was evaluated: a [defaultdict] binds a
    missing key to a new empty container on first access. *)
Definition dd_touch (k : K) (d : gmap K (list V)) : gmap K (list V) :=
  match d !! k with
  | Some _ => d
  | None => <[k := []]> d
  end.
End DefaultDict.

(** ** Walking a list that callbacks may change

    [for cb in lst: body(cb)] on a Python list keeps the list object and a
    position: each step takes the element at the position from the list as
    it is at that moment, and the loop ends when the position is past the
    end.  The buses never rebind a key of their registries, they only
    append to and remove from the list bound to it, so the list object
    under iteration is the list found under its key in the current
    state: [current] reads it. *)
Section ForIn.
Context {E B : Type}.
Variable current : B -> list Callback.
Variable body : Callback -> M E B unit.

Fixpoint for_in (fuel : nat) (i : nat) : M E B unit :=
  match fuel with
  | 0 => out_of_fuel
  | S fuel' => fun b =>
      match current b !! i with
      | None => ret tt b
      | Some cb => (body cb ;; for_in fuel' (S i)) b
      end
  end.
End ForIn.

(** ** The bus object

    The attributes of a bus.  [QueuingMessageBus] inherits from
    [MessageBus] and its instances carry one more attribute,
    [message_queue]; the methods of [MessageBus] neither read nor write
    it, so one record serves both classes and a plain [MessageBus] is a
    [Bus] whose queue is never looked at. *)
Record Bus : Type := mkBus {
  (* {MessageType: [list of receiver callbacks]} *)
  global_receivers : gmap nat (list nat);
  (* {(MessageType, instance): [list of receiver callbacks]} *)
  local_receivers : gmap (nat * nat) (list nat);
  (* {MessageType: deque of messages nobody was subscribed to} *)
  message_queue : gmap nat (list Message)
}.

Definition with_global (f : gmap nat (list nat) -> gmap nat (list nat))
  (b : Bus) : Bus :=
  mkBus (f (global_receivers b)) (local_receivers b) (message_queue b).

Definition with_local
  (f : gmap (nat * nat) (list nat) -> gmap (nat * nat) (list nat))
  (b : Bus) : Bus :=
  mkBus (global_receivers b) (f (local_receivers b)) (message_queue b).

Definition with_queue
  (f : gmap nat (list Message) -> gmap nat (list Message)) (b : Bus) : Bus :=
  mkBus (global_receivers b) (local_receivers b) (f (message_queue b)).

(** What is registered under a key, whether or not the key is bound. *)
Definition global_of (b : Bus) (t : MessageType) : list Callback :=
  dd_peek t (global_receivers b).
Definition local_of (b : Bus) (pair : MessageType * Instance) : list Callback :=
  dd_peek pair (local_receivers b).
Definition queue_of (b : Bus) (t : MessageType) : list Message :=
  dd_peek t (message_queue b).

(** The bus after [broadcast] looked up the two keys of a message. *)
Definition touched (m : Message) (b : Bus) : Bus :=
  with_local (dd_touch (msg_class m, sender m))
    (with_global (dd_touch (msg_class m)) b).

(** The invocations a dispatch of [m] makes when the callbacks leave the
    bus alone: the global receivers of its class, then the local
    receivers of its class and sender. *)
Definition deliveries (b : Bus) (m : Message) : list (nat * Message) :=
  map (fun cb => (cb, m)) (global_of b (msg_class m)) ++
  map (fun cb => (cb, m)) (local_of b (msg_class m, sender m)).

(** The bus after a queuing broadcast of [m] to callbacks that leave the
    bus alone: the keys of the message were looked up, and the message
    has joined the backlog of its class when there was nobody to deliver
    it to. *)
Definition after_broadcast (m : Message) (b : Bus) : Bus :=
  match deliveries b m with
  | [] =>
      with_queue (<[msg_class m := queue_of b (msg_class m) ++ [m]]>)
        (touched m b)
  | _ :: _ => touched m b
  end.

(** A callback invocation: the callable and the message it was given. *)
Abbreviation Event := (nat * Message)%type (only parsing).

(** What the callbacks do to the bus when they run: anything. *)
Abbreviation Callbacks := (nat -> Message -> M (nat * Message) Bus unit)
  (only parsing).

(** What [reset] writes to the log: the callbacks left under a key of the
    global registry, or under a key of the local registry. *)
Inductive Diagnostic : Type :=
  | LeftoverGlobal (cb : list Callback) (messagetype : MessageType)
  | LeftoverLocal (cb : list Callback) (pair : MessageType * Instance).

Module MessageBus.

(** [__init__] *)
Definition init : Bus := mkBus ∅ ∅ ∅.

Section Methods.
Variable call : Callbacks.

(** [self.global_receivers[messagetype]] *)
Definition global_getitem (messagetype : MessageType)
  : M Event Bus (list Callback) :=
  modify (with_global (dd_touch messagetype)) ;;
  gets (fun self => global_of self messagetype).

(** [self.local_receivers[pair]] *)
Definition local_getitem (pair : MessageType * Instance)
  : M Event Bus (list Callback) :=
  modify (with_local (dd_touch pair)) ;;
  gets (fun self => local_of self pair).

Definition subscribe_globally (messagetype : MessageType)
  (callback : Callback) : M Event Bus unit :=
  l <- global_getitem messagetype ;;
  modify (with_global (<[messagetype := l ++ [callback]]>)).

Definition subscribe_locally (messagetype : MessageType)
  (instance : Instance) (callback : Callback) : M Event Bus unit :=
  let pair := (messagetype, instance) in
  l <- local_getitem pair ;;
  modify (with_local (<[pair := l ++ [callback]]>)).

(** [assert callback in ...] first; the assertion is taken to be
    checked (with assertions switched off, [remove] raises [ValueError]
    in its place). *)
Definition unsubscribe_globally (messagetype : MessageType)
  (callback : Callback) : M Event Bus unit :=
  l <- global_getitem messagetype ;;
  if negb (py_in callback l) then raise AssertionError
  else
    l <- global_getitem messagetype ;;
    match py_remove callback l with
    | None => raise ValueError
    | Some l' => modify (with_global (<[messagetype := l']>))
    end.

Definition unsubscribe_locally (messagetype : MessageType)
  (instance : Instance) (callback : Callback) : M Event Bus unit :=
  let pair := (messagetype, instance) in
  l <- local_getitem pair ;;
  if negb (py_in callback l) then raise AssertionError
  else
    l <- local_getitem pair ;;
    match py_remove callback l with
    | None => raise ValueError
    | Some l' => modify (with_local (<[pair := l']>))
    end.

Definition discard_globally (messagetype : MessageType)
  (callback : Callback) : M Event Bus unit :=
  l <- global_getitem messagetype ;;
  if py_in callback l then unsubscribe_globally messagetype callback
  else ret tt.

Definition discard_locally (messagetype : MessageType)
  (instance : Instance) (callback : Callback) : M Event Bus unit :=
  let pair := (messagetype, instance) in
  bound <- gets (fun self => bool_decide (is_Some (local_receivers self !! pair))) ;;
  if bound : bool then
    l <- local_getitem pair ;;
    if py_in callback l
    then unsubscribe_locally messagetype instance callback
    else ret tt
  else ret tt.

(** [callback(message)] *)
Definition invoke (message : Message) (callback : Callback)
  : M Event Bus unit :=
  tell (callback, message) ;; call callback message.

Definition broadcast (fuel : nat) (message : Message) : M Event Bus unit :=
  let messagetype := msg_class message in
  global_getitem messagetype ;;
  for_in (fun self => global_of self messagetype) (invoke message) fuel 0 ;;
  let pair := (messagetype, sender message) in
  local_getitem pair ;;
  for_in (fun self => local_of self pair) (invoke message) fuel 0.
End Methods.

(** [for key, cb_list in registry.iteritems(): if cb_list: self.log.debug(...)]
    over the items of a registry.  A Python 2 dictionary is walked in an
    order of its own; the order of [map_to_list] stands for it in
    [reset]. *)
Fixpoint report_leftovers {K : Type} (entry : list Callback -> K -> Diagnostic)
  (items : list (K * list Callback)) : M Diagnostic Bus unit :=
  match items with
  | [] => ret tt
  | (key, cb_list) :: rest =>
      (match cb_list with
       | [] => ret tt
       | _ :: _ => tell (entry cb_list key)
       end) ;;
      report_leftovers entry rest
  end.

(** [reset].  [destroy_instance] belongs to the [Singleton] metaclass,
    which is not part of this file: it is a parameter. *)
Definition reset (destroy_instance : M Diagnostic Bus unit)
  : M Diagnostic Bus unit :=
  (* there shouldn't be anything left now, warn if there is *)
  items <- gets (fun self => map_to_list (global_receivers self)) ;;
  report_leftovers LeftoverGlobal items ;;
  items <- gets (fun self => map_to_list (local_receivers self)) ;;
  report_leftovers LeftoverLocal items ;;
  (* suicide, next instance will be created on demand *)
  destroy_instance.
End MessageBus.

Module QueuingMessageBus.

(** [__init__] *)
Definition init : Bus := mkBus ∅ ∅ ∅.

Section Methods.
Variable call : Callbacks.

(** [self.message_queue[messagetype]] *)
Definition queue_getitem (messagetype : MessageType)
  : M Event Bus (list Message) :=
  modify (with_queue (dd_touch messagetype)) ;;
  gets (fun self => queue_of self messagetype).

Definition broadcast (fuel : nat) (message : Message) : M Event Bus unit :=
  let messagetype := msg_class message in
  let pair := (messagetype, sender message) in
  (* check if the message will go anywhere, if not, then queue it *)
  g <- MessageBus.global_getitem messagetype ;;
  if negb (length g =? 0) then MessageBus.broadcast call fuel message
  else
    l <- MessageBus.local_getitem pair ;;
    if negb (length l =? 0) then MessageBus.broadcast call fuel message
    else
      q <- queue_getitem messagetype ;;
      modify (with_queue (<[messagetype := q ++ [message]]>)).

(** [while len(self.message_queue[messagetype]):
       self.broadcast(self.message_queue[messagetype].popleft())] *)
Fixpoint drain (fuel : nat) (messagetype : MessageType)
  : M Event Bus unit :=
  match fuel with
  | 0 => out_of_fuel
  | S fuel' =>
      q <- queue_getitem messagetype ;;
      if length q =? 0 then ret tt
      else
        q <- queue_getitem messagetype ;;
        match q with
        | [] => raise IndexError   (* popleft on an empty deque *)
        | message :: q' =>
            modify (with_queue (<[messagetype := q']>)) ;;
            broadcast fuel' message ;;
            drain fuel' messagetype
        end
  end.

Definition subscribe_globally (fuel : nat) (messagetype : MessageType)
  (callback : Callback) : M Event Bus unit :=
  MessageBus.subscribe_globally messagetype callback ;;
  drain fuel messagetype.

(** [for message in self.message_queue[messagetype]: ...].  A deque
    iterator refuses to go on once the deque was changed: after a turn
    of the loop whose body ran (it ends in [remove]), asking for the
    next message raises [RuntimeError].  Until then the iterator walks
    the deque as it was when the loop started. *)
Fixpoint replay_for (fuel : nat) (messagetype : MessageType)
  (instance : Instance) (rest : list Message) : M Event Bus unit :=
  match rest with
  | [] => ret tt
  | message :: rest' =>
      if tuple2_eqb (PyMessage message, PyInstance (sender message))
                    (PyClass messagetype, PyInstance instance)
      then
        broadcast fuel message ;;
        q <- queue_getitem messagetype ;;
        match py_remove message q with
        | None => raise ValueError
        | Some q' =>
            modify (with_queue (<[messagetype := q']>)) ;;
            raise RuntimeError
        end
      else replay_for fuel messagetype instance rest'
  end.

Definition subscribe_locally (fuel : nat) (messagetype : MessageType)
  (instance : Instance) (callback : Callback) : M Event Bus unit :=
  MessageBus.subscribe_locally messagetype instance callback ;;
  q <- queue_getitem messagetype ;;
  replay_for fuel messagetype instance q.

Definition clear (messagetype : MessageType) : M Event Bus unit :=
  queue_getitem messagetype ;;
  modify (with_queue (<[messagetype := []]>)).

Definition queue_len (messagetype : MessageType) : M Event Bus nat :=
  q <- queue_getitem messagetype ;;
  ret (length q).
End Methods.
End QueuingMessageBus.

(** ** SimpleMessageBus *)

(** The arguments [*args, **kwargs] of a broadcast, handed to every
    callback as they are. *)
Abbreviation Payload := (list Z) (only parsing).

Record SimpleBus : Type := mkSimpleBus {
  _message_types : list string;
  _callbacks : gmap string (list nat)
}.

Definition with_callbacks
  (f : gmap string (list nat) -> gmap string (list nat)) (b : SimpleBus)
  : SimpleBus :=
  mkSimpleBus (_message_types b) (f (_callbacks b)).

Definition callbacks_of (b : SimpleBus) (type : string) : list Callback :=
  dd_peek type (_callbacks b).

Abbreviation SimpleEvent := (nat * list Z)%type (only parsing).
Abbreviation SimpleCallbacks :=
  (nat -> list Z -> M (nat * list Z) SimpleBus unit) (only parsing).

Module SimpleMessageBus.

(** [__init__] *)
Definition init (message_types : list string) : SimpleBus :=
  mkSimpleBus message_types ∅.

Section Methods.
Variable call : SimpleCallbacks.

(** [self._callbacks[type]] *)
Definition callbacks_getitem (type : string)
  : M SimpleEvent SimpleBus (list Callback) :=
  modify (with_callbacks (dd_touch type)) ;;
  gets (fun self => callbacks_of self type).

Definition subscribe (type : string) (callback : Callback)
  : M SimpleEvent SimpleBus unit :=
  known <- gets (fun self => py_in type (_message_types self)) ;;
  if negb known then raise TypeError
  else
    l <- callbacks_getitem type ;;
    if py_in callback l then raise PyException
    else
      l <- callbacks_getitem type ;;
      modify (with_callbacks (<[type := l ++ [callback]]>)).

Definition unsubscribe (type : string) (callback : Callback)
  : M SimpleEvent SimpleBus unit :=
  l <- callbacks_getitem type ;;
  match py_remove callback l with
  | None => raise ValueError
  | Some l' => modify (with_callbacks (<[type := l']>))
  end.

Definition discard (type : string) (callback : Callback)
  : M SimpleEvent SimpleBus unit :=
  l <- callbacks_getitem type ;;
  if py_in callback l then
    l <- callbacks_getitem type ;;
    match py_remove callback l with
    | None => raise ValueError
    | Some l' => modify (with_callbacks (<[type := l']>))
    end
  else ret tt.

(** The call [cb] makes with the broadcast arguments. *)
Definition invoke (args : Payload) (cb : Callback)
  : M SimpleEvent SimpleBus unit :=
  tell (cb, args) ;; call cb args.

Definition broadcast (fuel : nat) (type : string) (args : Payload)
  : M SimpleEvent SimpleBus unit :=
  known <- gets (fun self => py_in type (_message_types self)) ;;
  if negb known then ret tt
  else
    callbacks_getitem type ;;
    for_in (fun self => callbacks_of self type) (invoke args) fuel 0.
End Methods.
End SimpleMessageBus.

(** ** Reference algorithms and callback behaviours

    The description asks for loops over snapshots.  The definitions below
    follow its words, to be compared with the methods above. *)

(** A loop over a fixed sequence, whatever [body] does to the bus. *)
Fixpoint each {E B A : Type} (body : A -> M E B unit) (l : list A)
  : M E B unit :=
  match l with
  | [] => ret tt
  | x :: l' => body x ;; each body l'
  end.

(** The description's dispatch: "iterate over a stable snapshot of the
    callback list taken at the start of broadcast". *)
Definition broadcast_snapshot (call : Callbacks) (message : Message)
  : M Event Bus unit :=
  fun self =>
    let messagetype := msg_class message in
    let pair := (messagetype, sender message) in
    let globals := global_of self messagetype in
    let locals := local_of self pair in
    (MessageBus.global_getitem messagetype ;;
     each (MessageBus.invoke call message) globals ;;
     MessageBus.local_getitem pair ;;
     each (MessageBus.invoke call message) locals) self.

Definition simple_broadcast_snapshot (call : SimpleCallbacks)
  (type : string) (args : Payload) : M SimpleEvent SimpleBus unit :=
  fun self =>
    let snapshot := callbacks_of self type in
    (known <- gets (fun self => py_in type (_message_types self)) ;;
     if negb known then ret tt
     else
       SimpleMessageBus.callbacks_getitem type ;;
       each (SimpleMessageBus.invoke call args) snapshot) self.

(** The description's replay on [subscribe_globally]: "snapshot-and-clear
    the queue before replay", then re-broadcast each drained message. *)
Definition subscribe_globally_snapshot (call : Callbacks) (fuel : nat)
  (messagetype : MessageType) (callback : Callback) : M Event Bus unit :=
  MessageBus.subscribe_globally messagetype callback ;;
  drained <- QueuingMessageBus.queue_getitem messagetype ;;
  modify (with_queue (<[messagetype := []]>)) ;;
  each (QueuingMessageBus.broadcast call fuel) drained.

(** The description's replay on [subscribe_locally]: "drain matching
    entries into a temporary sequence, remove them from the live queue
    first, then dispatch from the temporary sequence", where an entry
    matches when its sender is the subscribed instance. *)
Definition subscribe_locally_snapshot (call : Callbacks) (fuel : nat)
  (messagetype : MessageType) (instance : Instance) (callback : Callback)
  : M Event Bus unit :=
  MessageBus.subscribe_locally messagetype instance callback ;;
  q <- QueuingMessageBus.queue_getitem messagetype ;;
  let drained := filter (fun m => sender m = instance) q in
  let kept := filter (fun m => sender m <> instance) q in
  modify (with_queue (<[messagetype := kept]>)) ;;
  each (QueuingMessageBus.broadcast call fuel) drained.

(** Two bus objects hold the same subscriptions and the same backlog: the
    lists found under every key agree.  A registry that has bound a key
    to an empty list because the key was looked up is not told apart from
    one that has not. *)
Definition same_bus (b b' : Bus) : Prop :=
  (forall t, global_of b t = global_of b' t) /\
  (forall p, local_of b p = local_of b' p) /\
  (forall t, queue_of b t = queue_of b' t).

Definition same_simple_bus (b b' : SimpleBus) : Prop :=
  _message_types b = _message_types b' /\
  (forall t, callbacks_of b t = callbacks_of b' t).

(** Outcomes that cannot be told apart: the same result, the same
    invocations, and objects related by [R] at the end. *)
Definition alike {E B A : Type} (R : B -> B -> Prop) (o o' : outcome E B A)
  : Prop :=
  result o = result o' /\ calls o = calls o' /\ R (state o) (state o').

(** A computation that cannot tell objects related by [R] apart. *)
Definition blind {E B A : Type} (R : B -> B -> Prop) (m : M E B A) : Prop :=
  forall b b', R b b' -> alike R (m b) (m b').

(** On a simple bus only types of the bus have callbacks: [subscribe] is
    the one method that adds a callback, and it refuses other types. *)
Definition only_known_types (b : SimpleBus) : Prop :=
  forall t, callbacks_of b t <> [] -> t ∈ _message_types b.

(** Callbacks that return normally and leave the bus alone. *)
Definition quiet {E B A1 A2 : Type} (call : A1 -> A2 -> M E B unit) : Prop :=
  forall x y b, call x y b = ret tt b.

(** Callbacks that, whatever else they do, leave one aspect of the bus as
    they found it. *)
Definition preserves {E B A X : Type} (view : B -> X)
  (body : A -> M E B unit) : Prop :=
  forall x b, view (state (body x b)) = view b.

(** Fuel that is enough to replay the backlog of a class to quiet
    callbacks once one more callback has subscribed: a turn of the loop
    for every message and one to see the backlog empty, on top of the
    longest dispatch. *)
Definition replay_fuel (b : Bus) (t : MessageType) : nat :=
  length (queue_of b t) +
  max_list (map (fun m => length (deliveries b m)) (queue_of b t)) + 2.

(** Sample behaviours. *)
Definition silent : Callbacks := fun _ _ => ret tt.
Definition simple_silent : SimpleCallbacks := fun _ _ => ret tt.

(** Callback 1 unsubscribes itself when it is called; the others do
    nothing. *)
Definition unsubscribes_itself : Callbacks :=
  fun cb message =>
    if cb =? 1 then MessageBus.unsubscribe_globally (msg_class message) 1
    else ret tt.

(** Callback 1 subscribes callback 3 when it is called. *)
Definition subscribes_another : Callbacks :=
  fun cb message =>
    if cb =? 1 then MessageBus.subscribe_globally (msg_class message) 3
    else ret tt.

(** Callback 1 throws the backlog of the message's class away. *)
Definition clears_backlog : Callbacks :=
  fun cb message =>
    if cb =? 1 then QueuingMessageBus.clear (msg_class message)
    else ret tt.

(** Simple-bus callback 1 unsubscribes itself from ["foo"]. *)
Definition simple_unsubscribes_itself : SimpleCallbacks :=
  fun cb _ =>
    if cb =? 1 then SimpleMessageBus.unsubscribe "foo" 1 else ret tt.

(** Sample objects. *)
Definition msg (t s i : nat) : Message := mkMessage t s i.

(** A queuing bus on which two messages of class 0 were broadcast, from
    senders 7 and 8, while nobody was subscribed. *)
Definition backlog_of_two : Bus :=
  state (QueuingMessageBus.broadcast silent 1 (msg 0 8 101)
    (state (QueuingMessageBus.broadcast silent 1 (msg 0 7 100)
       QueuingMessageBus.init))).

(** A simple bus for ["foo"] and ["bar"] with callbacks 1 and 2 subscribed
    to ["foo"]. *)
Definition simple_bus_with_two : SimpleBus :=
  state (SimpleMessageBus.subscribe "foo" 2
    (state (SimpleMessageBus.subscribe "foo" 1
       (SimpleMessageBus.init ["foo"; "bar"]%string)))).

(** A simple bus for ["foo"] and ["bar"] with callback 1 subscribed to
    ["foo"]. *)
Definition simple_bus_foo : SimpleBus :=
  state (SimpleMessageBus.subscribe "foo" 1
    (SimpleMessageBus.init ["foo"; "bar"]%string)).

(** A bus with callback 1 subscribed to class 0 both globally and locally
    for sender 7, and callback 2 subscribed locally for sender 8. *)
Definition bus_both_ways : Bus :=
  state (MessageBus.subscribe_locally 0 8 2
    (state (MessageBus.subscribe_locally 0 7 1
      (state (MessageBus.subscribe_globally 0 1 MessageBus.init))))).

(** A bus with callbacks 1 and 2 subscribed globally to class 0. *)
Definition bus_with_two : Bus :=
  state (MessageBus.subscribe_globally 0 2
    (state (MessageBus.subscribe_globally 0 1 MessageBus.init))).

(** ** Invariants and further sample behaviours *)

(** A computation that keeps a property of the object, however it ends. *)
Definition keeps {E B A : Type} (P : B -> Prop) (m : M E B A) : Prop :=
  forall b, P b -> P (state (m b)).

(** Every message waiting under a key of the backlog is of that class. *)
Definition queued_by_class (b : Bus) : Prop :=
  forall t m, m ∈ queue_of b t -> msg_class m = t.

(** No callback is registered twice for a type of a simple bus. *)
Definition duplicate_free (b : SimpleBus) : Prop :=
  forall t, NoDup (callbacks_of b t).

(** Callback 1 raises when it is called. *)
Definition fails : Callbacks :=
  fun cb message => if cb =? 1 then raise (CallbackError 0) else ret tt.

(** Callback 1 subscribes itself once more when it is called. *)
Definition resubscribes_itself : Callbacks :=
  fun cb message =>
    if cb =? 1 then MessageBus.subscribe_globally (msg_class message) 1
    else ret tt.

(** * Properties *)

(** ** Containers *)

Section ContainerFacts.
Context {A : Type} `{EqDecision A}.
Implicit Types (x : A) (l : list A).

Lemma py_in_true x l : py_in x l = true <-> x ∈ l.
Proof. unfold py_in. apply bool_decide_eq_true. Qed.

Lemma py_in_false x l : py_in x l = false <-> x ∉ l.
Proof. unfold py_in. apply bool_decide_eq_false. Qed.

Lemma py_remove_absent x l : x ∉ l -> py_remove x l = None.
Proof.
  induction l as [|y l IH]; intros Hx; simpl; [done|].
  apply not_elem_of_cons in Hx as [Hne Hl].
  destruct (decide (x = y)); [done|]. by rewrite IH.
Qed.

(** [remove] takes out the first occurrence and nothing else. *)
Lemma py_remove_first x l :
  x ∈ l ->
  exists l1 l2,
    l = l1 ++ (x :: l2) /\ (x ∉ l1) /\ py_remove x l = Some (l1 ++ l2).
Proof.
  induction l as [|y l IH]; intros Hx; [by apply elem_of_nil in Hx|].
  simpl. destruct (decide (x = y)) as [->|Hne].
  - exists [], l. split_and!; [done| |done]. apply not_elem_of_nil.
  - apply elem_of_cons in Hx as [?|Hx]; [done|].
    destruct (IH Hx) as (l1 & l2 & -> & Hl1 & ->).
    exists (y :: l1), l2. split_and!; [done| |done].
    apply not_elem_of_cons. done.
Qed.

Lemma py_remove_present x l : x ∈ l -> py_remove x l = Some (remove_first x l).
Proof.
  induction l as [|y l IH]; intros Hx; [by apply elem_of_nil in Hx|].
  simpl. destruct (decide (x = y)) as [->|Hne]; [done|].
  apply elem_of_cons in Hx as [?|Hx]; [done|]. by rewrite IH.
Qed.

Lemma remove_first_absent x l : x ∉ l -> remove_first x l = l.
Proof.
  induction l as [|y l IH]; intros Hx; simpl; [done|].
  apply not_elem_of_cons in Hx as [Hne Hl].
  rewrite decide_False by done. by rewrite IH.
Qed.

Lemma py_remove_is_Some x l : x ∈ l -> is_Some (py_remove x l).
Proof. intros Hx. destruct (py_remove_first x l Hx) as (?&?&_&_&->). eauto. Qed.

Lemma occurrences_cons x y l :
  occurrences x (y :: l) = (if decide (y = x) then 1 else 0) + occurrences x l.
Proof.
  unfold occurrences. rewrite filter_cons.
  destruct (decide (y = x)); simpl; lia.
Qed.

Lemma occurrences_app x l1 l2 :
  occurrences x (l1 ++ l2) = occurrences x l1 + occurrences x l2.
Proof. unfold occurrences. by rewrite filter_app, length_app. Qed.

Lemma occurrences_absent x l : x ∉ l -> occurrences x l = 0.
Proof.
  induction l as [|y l IH]; intros Hx; [done|].
  apply not_elem_of_cons in Hx as [Hne Hl].
  rewrite occurrences_cons, IH by done. by rewrite decide_False.
Qed.

Lemma occurrences_pos x l : x ∈ l <-> 0 < occurrences x l.
Proof.
  split.
  - induction l as [|y l IH]; intros Hx; [by apply elem_of_nil in Hx|].
    rewrite occurrences_cons. apply elem_of_cons in Hx as [->|Hx].
    + rewrite decide_True by done. lia.
    + specialize (IH Hx). lia.
  - intros Hpos. destruct (decide (x ∈ l)) as [|Hx]; [done|].
    rewrite occurrences_absent in Hpos by done. lia.
Qed.

(** [remove] lowers the count of the removed element by one and leaves
    the other counts alone. *)
Lemma py_remove_count x l l' y :
  py_remove x l = Some l' ->
  occurrences y l = occurrences y l' + (if decide (x = y) then 1 else 0).
Proof.
  revert l'. induction l as [|z l IH]; intros l'; simpl; [done|].
  rewrite occurrences_cons.
  destruct (decide (x = z)) as [->|Hne].
  - intros [= ->]. destruct (decide (z = y)); lia.
  - destruct (py_remove x l) as [r|] eqn:Hr; [|done].
    intros [= <-]. rewrite occurrences_cons. specialize (IH r eq_refl).
    destruct (decide (z = y)), (decide (x = y)); lia.
Qed.
End ContainerFacts.

Section DefaultDictFacts.
Context {K : Type} `{Countable K} {V : Type}.
Implicit Types (k : K) (d : gmap K (list V)).

Lemma dd_peek_touch k k' d : dd_peek k' (dd_touch k d) = dd_peek k' d.
Proof.
  unfold dd_peek, dd_touch. destruct (d !! k) eqn:Hk; [done|].
  destruct (decide (k = k')) as [->|Hne].
  - by rewrite lookup_insert_eq, Hk.
  - by rewrite lookup_insert_ne.
Qed.

Lemma dd_touch_bound k d : is_Some (d !! k) -> dd_touch k d = d.
Proof. intros [v Hv]. unfold dd_touch. by rewrite Hv. Qed.

Lemma dd_touch_is_bound k d : is_Some (dd_touch k d !! k).
Proof.
  unfold dd_touch. destruct (d !! k) eqn:Hk; [by rewrite Hk|].
  rewrite lookup_insert_eq. eauto.
Qed.

Lemma dd_touch_idemp k d : dd_touch k (dd_touch k d) = dd_touch k d.
Proof. apply dd_touch_bound, dd_touch_is_bound. Qed.

Lemma dd_peek_nonempty_bound k d : dd_peek k d <> [] -> is_Some (d !! k).
Proof. unfold dd_peek. destruct (d !! k); [eauto|done]. Qed.

Lemma dd_touch_empty k d : dd_peek k d = [] -> dd_touch k d = <[k := []]> d.
Proof.
  unfold dd_peek, dd_touch. destruct (d !! k) as [l|] eqn:Hk; [|done].
  simpl. intros ->. by rewrite insert_id.
Qed.

Lemma dd_insert_touch k v d : <[k := v]> (dd_touch k d) = <[k := v]> d.
Proof.
  unfold dd_touch. destruct (d !! k); [done|]. apply insert_insert_eq.
Qed.

Lemma dd_peek_insert k k' v d :
  dd_peek k' (<[k := v]> d) = if decide (k = k') then v else dd_peek k' d.
Proof.
  unfold dd_peek. destruct (decide (k = k')) as [->|Hne].
  - by rewrite lookup_insert_eq.
  - by rewrite lookup_insert_ne.
Qed.

Lemma dd_peek_insert_eq k v d : dd_peek k (<[k := v]> d) = v.
Proof. rewrite dd_peek_insert. by rewrite decide_True. Qed.

Lemma dd_peek_insert_ne k k' v d :
  k <> k' -> dd_peek k' (<[k := v]> d) = dd_peek k' d.
Proof. intros. rewrite dd_peek_insert. by rewrite decide_False. Qed.
End DefaultDictFacts.

(** ** Computations *)

Section MonadFacts.
Context {E B : Type}.

Lemma outcome_eta {A} (o : outcome E B A) :
  Outcome (result o) (state o) (calls o) = o.
Proof. by destruct o. Qed.

Lemma bind_ret_l {A A'} (a : A) (f : A -> M E B A') b :
  bind (ret a) f b = f a b.
Proof. unfold bind, ret. simpl. apply outcome_eta. Qed.

Lemma bind_gets {A A'} (v : B -> A) (f : A -> M E B A') b :
  bind (gets v) f b = f (v b) b.
Proof. unfold bind, gets. simpl. apply outcome_eta. Qed.

Lemma bind_modify {A'} (u : B -> B) (f : unit -> M E B A') b :
  bind (modify u) f b = f tt (u b).
Proof. unfold bind, modify. simpl. apply outcome_eta. Qed.

Lemma bind_ok {A A'} (m : M E B A) (f : A -> M E B A') b a b' cs :
  m b = Outcome (Ok a) b' cs ->
  bind m f b =
  Outcome (result (f a b')) (state (f a b')) (cs ++ calls (f a b')).
Proof. intros Hm. unfold bind. by rewrite Hm. Qed.

Lemma bind_ok_silent {A A'} (m : M E B A) (f : A -> M E B A') b a b' :
  m b = Outcome (Ok a) b' [] -> bind m f b = f a b'.
Proof. intros Hm. rewrite (bind_ok _ _ _ _ _ _ Hm). apply outcome_eta. Qed.

Lemma bind_assoc {A A' A''} (m : M E B A) (f : A -> M E B A')
  (g : A' -> M E B A'') b :
  bind (bind m f) g b = bind m (fun x => bind (f x) g) b.
Proof.
  unfold bind. destruct (m b) as [[a|e|] b1 c1]; simpl; [|done..].
  destruct (f a b1) as [[a'|e|] b2 c2]; simpl; [|done..].
  by rewrite app_assoc.
Qed.

(** Continuations that agree on the state the first computation ends in
    may be exchanged. *)
Lemma bind_ext_at {A A'} (m : M E B A) (f g : A -> M E B A') b :
  (forall a, result (m b) = Ok a -> f a (state (m b)) = g a (state (m b))) ->
  bind m f b = bind m g b.
Proof.
  intros Hfg. unfold bind. destruct (result (m b)) as [a| |]; [|done..].
  by rewrite (Hfg a eq_refl).
Qed.

Lemma bind_cong {A A'} (m m' : M E B A) (f g : A -> M E B A') b :
  m b = m' b ->
  (forall a, result (m b) = Ok a -> f a (state (m b)) = g a (state (m b))) ->
  bind m f b = bind m' g b.
Proof.
  intros Hm Hfg. rewrite (bind_ext_at _ _ _ _ Hfg). unfold bind. by rewrite Hm.
Qed.

Lemma each_preserves {A X} (view : B -> X) (body : A -> M E B unit) l b :
  preserves view body -> view (state (each body l b)) = view b.
Proof.
  intros Hkeep. revert b. induction l as [|x l IH]; intros b; simpl; [done|].
  unfold bind. specialize (Hkeep x b).
  destruct (body x b) as [[[]| |] b1 c1]; simpl in *; [|done..].
  by rewrite IH.
Qed.

(** A loop whose body returns normally without touching the object
    calls nobody but through [body]. *)
Lemma each_pure {A} (body : A -> M E B unit) (ev : A -> E) l b :
  (forall x b, body x b = Outcome (Ok tt) b [ev x]) ->
  each body l b = Outcome (Ok tt) b (map ev l).
Proof.
  intros Hbody. induction l as [|x l IH]; simpl; [done|].
  unfold bind. rewrite Hbody. simpl. by rewrite IH.
Qed.
End MonadFacts.

(** ** The list iterator *)

Section ForInFacts.
Context {E B : Type}.
Variable current : B -> list nat.
Variable body : nat -> M E B unit.

(** As long as the bodies leave the list alone, walking the live list by
    position is walking the list as it was at the start. *)
Lemma for_in_stable fuel i b :
  preserves current body ->
  length (current b) - i < fuel ->
  for_in current body fuel i b = each body (drop i (current b)) b.
Proof.
  intros Hkeep. revert i b.
  induction fuel as [|fuel IH]; intros i b Hfuel; [lia|].
  simpl. destruct (current b !! i) as [cb|] eqn:Hi.
  - rewrite (drop_S _ _ _ Hi). simpl.
    apply lookup_lt_Some in Hi.
    unfold bind. destruct (body cb b) as [[[]|e|] b1 c1] eqn:Hb; simpl; [|done..].
    assert (current b1 = current b) as Hsame.
    { specialize (Hkeep cb b). by rewrite Hb in Hkeep. }
    rewrite IH by (rewrite Hsame; lia). by rewrite Hsame.
  - apply lookup_ge_None in Hi. by rewrite drop_ge.
Qed.

Lemma for_in_snapshot fuel b :
  preserves current body ->
  length (current b) < fuel ->
  for_in current body fuel 0 b = each body (current b) b.
Proof. intros Hkeep Hfuel. rewrite for_in_stable by (done || lia). done. Qed.
End ForInFacts.

(** ** MessageBus: the registries *)

Lemma with_global_same f b :
  f (global_receivers b) = global_receivers b -> with_global f b = b.
Proof. intros Hf. destruct b. unfold with_global. simpl in *. by rewrite Hf. Qed.

Lemma with_local_same f b :
  f (local_receivers b) = local_receivers b -> with_local f b = b.
Proof. intros Hf. destruct b. unfold with_local. simpl in *. by rewrite Hf. Qed.

Lemma with_queue_same f b :
  f (message_queue b) = message_queue b -> with_queue f b = b.
Proof. intros Hf. destruct b. unfold with_queue. simpl in *. by rewrite Hf. Qed.

Lemma global_of_touch t t' b :
  global_of (with_global (dd_touch t) b) t' = global_of b t'.
Proof. unfold global_of. simpl. apply dd_peek_touch. Qed.

Lemma local_of_touch p p' b :
  local_of (with_local (dd_touch p) b) p' = local_of b p'.
Proof. unfold local_of. simpl. apply dd_peek_touch. Qed.

Lemma queue_of_touch t t' b :
  queue_of (with_queue (dd_touch t) b) t' = queue_of b t'.
Proof. unfold queue_of. simpl. apply dd_peek_touch. Qed.

Lemma global_getitem_eq t b :
  MessageBus.global_getitem t b =
  Outcome (Ok (global_of b t)) (with_global (dd_touch t) b) [].
Proof.
  unfold MessageBus.global_getitem, bind, modify, gets. simpl.
  by rewrite global_of_touch.
Qed.

Lemma local_getitem_eq p b :
  MessageBus.local_getitem p b =
  Outcome (Ok (local_of b p)) (with_local (dd_touch p) b) [].
Proof.
  unfold MessageBus.local_getitem, bind, modify, gets. simpl.
  by rewrite local_of_touch.
Qed.

Lemma queue_getitem_eq t b :
  QueuingMessageBus.queue_getitem t b =
  Outcome (Ok (queue_of b t)) (with_queue (dd_touch t) b) [].
Proof.
  unfold QueuingMessageBus.queue_getitem, bind, modify, gets. simpl.
  by rewrite queue_of_touch.
Qed.

(** Once something is registered under a key, looking the key up changes
    nothing at all. *)
Lemma touch_global_registered t b :
  global_of b t <> [] -> with_global (dd_touch t) b = b.
Proof.
  intros Hne. apply with_global_same, dd_touch_bound.
  by apply dd_peek_nonempty_bound.
Qed.

Lemma touch_local_registered p b :
  local_of b p <> [] -> with_local (dd_touch p) b = b.
Proof.
  intros Hne. apply with_local_same, dd_touch_bound.
  by apply dd_peek_nonempty_bound.
Qed.

Lemma subscribe_globally_eq t cb b :
  MessageBus.subscribe_globally t cb b =
  Outcome (Ok tt) (with_global (<[t := global_of b t ++ [cb]]>) b) [].
Proof.
  unfold MessageBus.subscribe_globally.
  rewrite (bind_ok_silent _ _ _ _ _ (global_getitem_eq t b)).
  unfold modify, with_global. simpl. by rewrite dd_insert_touch.
Qed.

Lemma subscribe_locally_eq t i cb b :
  MessageBus.subscribe_locally t i cb b =
  Outcome (Ok tt) (with_local (<[(t, i) := local_of b (t, i) ++ [cb]]>) b) [].
Proof.
  unfold MessageBus.subscribe_locally.
  rewrite (bind_ok_silent _ _ _ _ _ (local_getitem_eq (t, i) b)).
  unfold modify, with_local. simpl. by rewrite dd_insert_touch.
Qed.

Lemma unsubscribe_globally_registered t cb b l' :
  py_remove cb (global_of b t) = Some l' ->
  MessageBus.unsubscribe_globally t cb b =
  Outcome (Ok tt) (with_global (<[t := l']>) b) [].
Proof.
  intros Hrm. unfold MessageBus.unsubscribe_globally.
  assert (cb ∈ global_of b t) as Hin.
  { destruct (decide (cb ∈ global_of b t)) as [|Hno]; [done|].
    by rewrite (py_remove_absent _ _ Hno) in Hrm. }
  rewrite (bind_ok_silent _ _ _ _ _ (global_getitem_eq t b)).
  rewrite (proj2 (py_in_true _ _) Hin). simpl.
  rewrite (bind_ok_silent _ _ _ _ _ (global_getitem_eq t _)).
  rewrite global_of_touch, Hrm.
  unfold modify, with_global. simpl. by rewrite !dd_insert_touch.
Qed.

Lemma unsubscribe_globally_unregistered t cb b :
  cb ∉ global_of b t ->
  MessageBus.unsubscribe_globally t cb b =
  Outcome (Raise AssertionError) (with_global (dd_touch t) b) [].
Proof.
  intros Hno. unfold MessageBus.unsubscribe_globally.
  rewrite (bind_ok_silent _ _ _ _ _ (global_getitem_eq t b)).
  by rewrite (proj2 (py_in_false _ _) Hno).
Qed.

Lemma unsubscribe_locally_registered t i cb b l' :
  py_remove cb (local_of b (t, i)) = Some l' ->
  MessageBus.unsubscribe_locally t i cb b =
  Outcome (Ok tt) (with_local (<[(t, i) := l']>) b) [].
Proof.
  intros Hrm. unfold MessageBus.unsubscribe_locally.
  assert (cb ∈ local_of b (t, i)) as Hin.
  { destruct (decide (cb ∈ local_of b (t, i))) as [|Hno]; [done|].
    by rewrite (py_remove_absent _ _ Hno) in Hrm. }
  rewrite (bind_ok_silent _ _ _ _ _ (local_getitem_eq (t, i) b)).
  rewrite (proj2 (py_in_true _ _) Hin). simpl.
  rewrite (bind_ok_silent _ _ _ _ _ (local_getitem_eq (t, i) _)).
  rewrite local_of_touch, Hrm.
  unfold modify, with_local. simpl. by rewrite !dd_insert_touch.
Qed.

Lemma unsubscribe_locally_unregistered t i cb b :
  cb ∉ local_of b (t, i) ->
  MessageBus.unsubscribe_locally t i cb b =
  Outcome (Raise AssertionError) (with_local (dd_touch (t, i)) b) [].
Proof.
  intros Hno. unfold MessageBus.unsubscribe_locally.
  rewrite (bind_ok_silent _ _ _ _ _ (local_getitem_eq (t, i) b)).
  by rewrite (proj2 (py_in_false _ _) Hno).
Qed.

Lemma discard_globally_eq t cb b :
  MessageBus.discard_globally t cb b =
  match py_remove cb (global_of b t) with
  | Some l' => Outcome (Ok tt) (with_global (<[t := l']>) b) []
  | None => Outcome (Ok tt) (with_global (dd_touch t) b) []
  end.
Proof.
  unfold MessageBus.discard_globally.
  rewrite (bind_ok_silent _ _ _ _ _ (global_getitem_eq t b)).
  destruct (decide (cb ∈ global_of b t)) as [Hin|Hno].
  - rewrite (proj2 (py_in_true _ _) Hin).
    destruct (py_remove_is_Some _ _ Hin) as [l' Hl'].
    rewrite Hl', touch_global_registered.
    + by apply unsubscribe_globally_registered.
    + intros Hnil. rewrite Hnil in Hin. by apply elem_of_nil in Hin.
  - rewrite (proj2 (py_in_false _ _) Hno). by rewrite py_remove_absent.
Qed.

Lemma discard_locally_eq t i cb b :
  MessageBus.discard_locally t i cb b =
  match py_remove cb (local_of b (t, i)) with
  | Some l' => Outcome (Ok tt) (with_local (<[(t, i) := l']>) b) []
  | None => Outcome (Ok tt) b []
  end.
Proof.
  unfold MessageBus.discard_locally. rewrite bind_gets.
  destruct (decide (cb ∈ local_of b (t, i))) as [Hin|Hno].
  - assert (local_of b (t, i) <> []) as Hne.
    { intros Hnil. rewrite Hnil in Hin. by apply elem_of_nil in Hin. }
    rewrite bool_decide_eq_true_2 by by apply dd_peek_nonempty_bound.
    destruct (py_remove_is_Some _ _ Hin) as [l' Hl']. rewrite Hl'.
    rewrite (bind_ok_silent _ _ _ _ _ (local_getitem_eq (t, i) b)).
    rewrite (proj2 (py_in_true _ _) Hin), touch_local_registered by done.
    rewrite (unsubscribe_locally_registered _ _ _ _ _ Hl'). done.
  - rewrite py_remove_absent by done.
    destruct (bool_decide (is_Some (local_receivers b !! (t, i)))) eqn:Hb.
    + apply bool_decide_eq_true in Hb.
      rewrite (bind_ok_silent _ _ _ _ _ (local_getitem_eq (t, i) b)).
      rewrite (proj2 (py_in_false _ _) Hno).
      unfold ret. simpl. f_equal. by apply with_local_same, dd_touch_bound.
    + done.
Qed.

(** ** SimpleMessageBus: the registry *)

Lemma with_callbacks_same f b :
  f (_callbacks b) = _callbacks b -> with_callbacks f b = b.
Proof. intros Hf. destruct b. unfold with_callbacks. simpl in *. by rewrite Hf. Qed.

Lemma callbacks_of_touch t t' b :
  callbacks_of (with_callbacks (dd_touch t) b) t' = callbacks_of b t'.
Proof. unfold callbacks_of. simpl. apply dd_peek_touch. Qed.

Lemma callbacks_getitem_eq t b :
  SimpleMessageBus.callbacks_getitem t b =
  Outcome (Ok (callbacks_of b t)) (with_callbacks (dd_touch t) b) [].
Proof.
  unfold SimpleMessageBus.callbacks_getitem, bind, modify, gets. simpl.
  by rewrite callbacks_of_touch.
Qed.

Lemma touch_callbacks_registered t b :
  callbacks_of b t <> [] -> with_callbacks (dd_touch t) b = b.
Proof.
  intros Hne. apply with_callbacks_same, dd_touch_bound.
  by apply dd_peek_nonempty_bound.
Qed.

Lemma simple_unsubscribe_eq t cb b :
  SimpleMessageBus.unsubscribe t cb b =
  match py_remove cb (callbacks_of b t) with
  | Some l' => Outcome (Ok tt) (with_callbacks (<[t := l']>) b) []
  | None => Outcome (Raise ValueError) (with_callbacks (dd_touch t) b) []
  end.
Proof.
  unfold SimpleMessageBus.unsubscribe.
  rewrite (bind_ok_silent _ _ _ _ _ (callbacks_getitem_eq t b)).
  destruct (py_remove cb (callbacks_of b t)); [|done].
  unfold modify, with_callbacks. simpl. by rewrite dd_insert_touch.
Qed.

Lemma simple_discard_eq t cb b :
  SimpleMessageBus.discard t cb b =
  match py_remove cb (callbacks_of b t) with
  | Some l' => Outcome (Ok tt) (with_callbacks (<[t := l']>) b) []
  | None => Outcome (Ok tt) (with_callbacks (dd_touch t) b) []
  end.
Proof.
  unfold SimpleMessageBus.discard.
  rewrite (bind_ok_silent _ _ _ _ _ (callbacks_getitem_eq t b)).
  destruct (decide (cb ∈ callbacks_of b t)) as [Hin|Hno].
  - rewrite (proj2 (py_in_true _ _) Hin).
    rewrite (bind_ok_silent _ _ _ _ _ (callbacks_getitem_eq t _)).
    rewrite callbacks_of_touch.
    destruct (py_remove_is_Some _ _ Hin) as [l' Hl']. rewrite Hl'.
    unfold modify, with_callbacks. simpl. by rewrite !dd_insert_touch.
  - rewrite (proj2 (py_in_false _ _) Hno). by rewrite py_remove_absent.
Qed.

Lemma simple_subscribe_eq t cb b :
  SimpleMessageBus.subscribe t cb b =
  if negb (py_in t (_message_types b)) then Outcome (Raise TypeError) b []
  else if py_in cb (callbacks_of b t) then Outcome (Raise PyException) b []
  else Outcome (Ok tt) (with_callbacks (<[t := callbacks_of b t ++ [cb]]>) b) [].
Proof.
  unfold SimpleMessageBus.subscribe. rewrite bind_gets.
  destruct (py_in t (_message_types b)); simpl; [|done].
  rewrite (bind_ok_silent _ _ _ _ _ (callbacks_getitem_eq t b)).
  destruct (py_in cb (callbacks_of b t)) eqn:Hin.
  - unfold raise. f_equal. apply touch_callbacks_registered.
    apply py_in_true in Hin. intros Hnil. rewrite Hnil in Hin.
    by apply elem_of_nil in Hin.
  - rewrite (bind_ok_silent _ _ _ _ _ (callbacks_getitem_eq t _)).
    rewrite callbacks_of_touch.
    unfold modify, with_callbacks. simpl. by rewrite !dd_insert_touch.
Qed.

Lemma same_bus_refl b : same_bus b b.
Proof. by split_and!. Qed.

Lemma same_bus_touch_global t b : same_bus (with_global (dd_touch t) b) b.
Proof. split_and!; [|done..]. intros t'. apply global_of_touch. Qed.

Lemma same_bus_touch_local p b : same_bus (with_local (dd_touch p) b) b.
Proof. split_and!; [done| |done]. intros p'. apply local_of_touch. Qed.

Lemma same_bus_touch_queue t b : same_bus (with_queue (dd_touch t) b) b.
Proof. split_and!; [done..|]. intros t'. apply queue_of_touch. Qed.

Lemma same_simple_bus_touch t b :
  same_simple_bus (with_callbacks (dd_touch t) b) b.
Proof. split; [done|]. intros t'. apply callbacks_of_touch. Qed.

(** ** Unsubscribing and discarding *)

(** C6.  [unsubscribe_globally], [unsubscribe_locally] and
    [SimpleMessageBus.unsubscribe] raise when the callback is not
    registered under the key (an [AssertionError] from the two
    [MessageBus] methods, a [ValueError] from the simple bus) and never
    return silently then; when the callback is registered they return
    normally, having taken its first occurrence out of the list under the
    key and nothing else. *)
Theorem unsubscribe_checks_registration
  (b : Bus) (sb : SimpleBus) (t i : nat) (type : string) (cb : nat) :
  MessageBus.unsubscribe_globally t cb b =
    (if py_in cb (global_of b t)
     then Outcome (Ok tt)
            (with_global (<[t := remove_first cb (global_of b t)]>) b) []
     else Outcome (Raise AssertionError) (with_global (dd_touch t) b) []) /\
  MessageBus.unsubscribe_locally t i cb b =
    (if py_in cb (local_of b (t, i))
     then Outcome (Ok tt)
            (with_local (<[(t, i) := remove_first cb (local_of b (t, i))]>) b) []
     else Outcome (Raise AssertionError) (with_local (dd_touch (t, i)) b) []) /\
  SimpleMessageBus.unsubscribe type cb sb =
    (if py_in cb (callbacks_of sb type)
     then Outcome (Ok tt)
            (with_callbacks (<[type := remove_first cb (callbacks_of sb type)]>) sb) []
     else Outcome (Raise ValueError) (with_callbacks (dd_touch type) sb) []).
Proof.
  split_and!.
  - destruct (py_in cb (global_of b t)) eqn:Hin.
    + apply py_in_true in Hin.
      by apply unsubscribe_globally_registered, py_remove_present.
    + apply py_in_false in Hin. by apply unsubscribe_globally_unregistered.
  - destruct (py_in cb (local_of b (t, i))) eqn:Hin.
    + apply py_in_true in Hin.
      by apply unsubscribe_locally_registered, py_remove_present.
    + apply py_in_false in Hin. by apply unsubscribe_locally_unregistered.
  - rewrite simple_unsubscribe_eq.
    destruct (py_in cb (callbacks_of sb type)) eqn:Hin.
    + apply py_in_true in Hin. by rewrite py_remove_present.
    + apply py_in_false in Hin. by rewrite py_remove_absent.
Qed.

(** C7.  [discard_globally], [discard_locally] and
    [SimpleMessageBus.discard] never raise.  When the callback is not
    registered under the key they leave the bus as it is: every key still
    holds the same callbacks ([discard_locally] leaves the object
    untouched; the other two at most bind the key they looked up to the
    empty list it stood for).  When the callback is registered they take
    its first occurrence out. *)
Theorem discard_is_safe
  (b : Bus) (sb : SimpleBus) (t i : nat) (type : string) (cb : nat) :
  let og := MessageBus.discard_globally t cb b in
  let ol := MessageBus.discard_locally t i cb b in
  let os := SimpleMessageBus.discard type cb sb in
  (result og = Ok tt /\ result ol = Ok tt /\ result os = Ok tt) /\
  (if py_in cb (global_of b t)
   then state og = with_global (<[t := remove_first cb (global_of b t)]>) b
   else state og = with_global (dd_touch t) b /\ same_bus (state og) b) /\
  (if py_in cb (local_of b (t, i))
   then state ol =
        with_local (<[(t, i) := remove_first cb (local_of b (t, i))]>) b
   else state ol = b) /\
  (if py_in cb (callbacks_of sb type)
   then state os =
        with_callbacks (<[type := remove_first cb (callbacks_of sb type)]>) sb
   else state os = with_callbacks (dd_touch type) sb /\
        same_simple_bus (state os) sb).
Proof.
  cbv zeta. rewrite discard_globally_eq, discard_locally_eq, simple_discard_eq.
  split_and!.
  - by destruct (py_remove cb (global_of b t)).
  - by destruct (py_remove cb (local_of b (t, i))).
  - by destruct (py_remove cb (callbacks_of sb type)).
  - destruct (py_in cb (global_of b t)) eqn:Hin.
    + apply py_in_true in Hin. by rewrite py_remove_present.
    + apply py_in_false in Hin. rewrite py_remove_absent by done. simpl.
      split; [done|]. apply same_bus_touch_global.
  - destruct (py_in cb (local_of b (t, i))) eqn:Hin.
    + apply py_in_true in Hin. by rewrite py_remove_present.
    + apply py_in_false in Hin. by rewrite py_remove_absent.
  - destruct (py_in cb (callbacks_of sb type)) eqn:Hin.
    + apply py_in_true in Hin. by rewrite py_remove_present.
    + apply py_in_false in Hin. rewrite py_remove_absent by done. simpl.
      split; [done|]. apply same_simple_bus_touch.
Qed.

(** ** SimpleMessageBus.subscribe *)

(** C8.  [subscribe] raises [TypeError] when the type is not one of the
    types the bus was built with, raises an exception when the callback is
    already registered for the type, and otherwise appends the callback
    to the list of the type.  In both error cases the bus is exactly as it
    was. *)
Theorem simple_subscribe_checks (sb : SimpleBus) (type : string) (cb : nat) :
  SimpleMessageBus.subscribe type cb sb =
    (if negb (py_in type (_message_types sb))
     then Outcome (Raise TypeError) sb []
     else if py_in cb (callbacks_of sb type)
     then Outcome (Raise PyException) sb []
     else Outcome (Ok tt)
            (with_callbacks (<[type := callbacks_of sb type ++ [cb]]>) sb) []) /\
  _message_types (state (SimpleMessageBus.subscribe type cb sb)) =
    _message_types sb.
Proof.
  rewrite simple_subscribe_eq. split; [done|].
  destruct (negb (py_in type (_message_types sb))); [done|].
  by destruct (py_in cb (callbacks_of sb type)).
Qed.

(** ** MessageBus.broadcast *)

Lemma touched_same_bus m b : same_bus (touched m b) b.
Proof.
  unfold touched. split_and!; [|intros p|done].
  - intros t. apply (global_of_touch (msg_class m) t b).
  - by rewrite local_of_touch.
Qed.

Lemma invoke_state call m cb b :
  state (MessageBus.invoke call m cb b) = state (call cb m b).
Proof.
  unfold MessageBus.invoke, bind, tell. simpl.
  by destruct (result (call cb m b)).
Qed.

Lemma invoke_quiet call m cb b :
  quiet call -> MessageBus.invoke call m cb b = Outcome (Ok tt) b [(cb, m)].
Proof.
  intros Hq. unfold MessageBus.invoke, bind, tell. simpl. by rewrite Hq.
Qed.

Lemma invoke_preserves {X} (view : Bus -> X) call m :
  preserves view (fun cb => call cb m) ->
  preserves view (MessageBus.invoke call m).
Proof. intros Hkeep cb b. rewrite invoke_state. apply Hkeep. Qed.

Lemma quiet_preserves {X} (view : Bus -> X) (call : Callbacks) m :
  quiet call -> preserves view (fun cb => call cb m).
Proof. intros Hq cb b. by rewrite Hq. Qed.

(** When no callback changes the two lists a broadcast dispatches to,
    walking the live lists and walking snapshots of them is one and the
    same computation. *)
Lemma broadcast_eq_snapshot call fuel m b :
  preserves (fun b => global_of b (msg_class m)) (fun cb => call cb m) ->
  preserves (fun b => local_of b (msg_class m, sender m)) (fun cb => call cb m) ->
  length (global_of b (msg_class m)) < fuel ->
  length (local_of b (msg_class m, sender m)) < fuel ->
  MessageBus.broadcast call fuel m b = broadcast_snapshot call m b.
Proof.
  intros Hg Hl Hfg Hfl. unfold MessageBus.broadcast, broadcast_snapshot.
  rewrite !(bind_ok_silent _ _ _ _ _ (global_getitem_eq _ b)).
  set (b1 := with_global _ b).
  assert (global_of b1 (msg_class m) = global_of b (msg_class m)) as Hb1g
    by apply global_of_touch.
  assert (local_of b1 (msg_class m, sender m)
          = local_of b (msg_class m, sender m)) as Hb1l by done.
  apply bind_cong.
  { rewrite for_in_snapshot, Hb1g;
      [done|by apply invoke_preserves|by rewrite Hb1g]. }
  intros [] _.
  set (b2 := state _).
  assert (local_of b2 (msg_class m, sender m)
          = local_of b (msg_class m, sender m)) as Hb2l.
  { unfold b2. rewrite for_in_snapshot;
      [|by apply invoke_preserves|by rewrite Hb1g].
    rewrite (each_preserves (fun b => local_of b (msg_class m, sender m)))
      by by apply invoke_preserves.
    done. }
  rewrite !(bind_ok_silent _ _ _ _ _ (local_getitem_eq _ b2)).
  rewrite for_in_snapshot;
    [|by apply invoke_preserves|by rewrite local_of_touch, Hb2l].
  by rewrite local_of_touch, Hb2l.
Qed.

Lemma broadcast_snapshot_quiet call m b :
  quiet call ->
  broadcast_snapshot call m b =
  Outcome (Ok tt) (touched m b)
    (map (fun cb => (cb, m)) (global_of b (msg_class m)) ++
     map (fun cb => (cb, m)) (local_of b (msg_class m, sender m))).
Proof.
  intros Hq. unfold broadcast_snapshot.
  rewrite (bind_ok_silent _ _ _ _ _ (global_getitem_eq _ b)).
  erewrite bind_ok; [|apply each_pure; intros; by apply invoke_quiet].
  rewrite (bind_ok_silent _ _ _ _ _ (local_getitem_eq _ _)).
  rewrite (each_pure _ (fun cb => (cb, m))) by (intros; by apply invoke_quiet).
  done.
Qed.

Lemma broadcast_quiet call fuel m b :
  quiet call ->
  length (global_of b (msg_class m)) < fuel ->
  length (local_of b (msg_class m, sender m)) < fuel ->
  MessageBus.broadcast call fuel m b =
  Outcome (Ok tt) (touched m b)
    (map (fun cb => (cb, m)) (global_of b (msg_class m)) ++
     map (fun cb => (cb, m)) (local_of b (msg_class m, sender m))).
Proof.
  intros Hq Hfg Hfl.
  rewrite broadcast_eq_snapshot by (done || by apply quiet_preserves).
  by apply broadcast_snapshot_quiet.
Qed.

Lemma occurrences_map_pair (m : Message) (cb : nat) (l : list nat) :
  occurrences (cb, m) (map (fun c => (c, m)) l) = occurrences cb l.
Proof.
  induction l as [|c l IH]; [done|].
  simpl. rewrite !occurrences_cons, IH.
  destruct (decide (c = cb)) as [->|Hne].
  - by rewrite decide_True.
  - rewrite decide_False; [done|]. by intros [= ?].
Qed.

Lemma occurrences_map_other (m m' : Message) (cb : nat) (l : list nat) :
  m <> m' -> occurrences (cb, m) (map (fun c => (c, m')) l) = 0.
Proof.
  intros Hne. apply occurrences_absent. intros Hin.
  apply list_elem_of_fmap in Hin as (c & [= _ ?] & _). congruence.
Qed.

(** C4.  When the callbacks it invokes return normally and leave the bus
    alone, [broadcast] first invokes, in registration order, the callbacks
    registered globally for the class of the message, then, in
    registration order, those registered locally for the class and the
    sender of the message.  Nothing is deduplicated: a callback is invoked
    as many times as it is registered under the two keys, so twice when it
    is registered once globally and once locally.  Only those two keys
    count: a callback registered locally for another sender, and not under
    either key, is not invoked. *)
Theorem broadcast_global_then_local
  (call : Callbacks) (fuel : nat) (m : Message) (b : Bus) :
  quiet call ->
  length (global_of b (msg_class m)) < fuel ->
  length (local_of b (msg_class m, sender m)) < fuel ->
  let globals := global_of b (msg_class m) in
  let locals := local_of b (msg_class m, sender m) in
  let o := MessageBus.broadcast call fuel m b in
  result o = Ok tt /\
  calls o = map (fun cb => (cb, m)) globals ++ map (fun cb => (cb, m)) locals /\
  (forall cb, occurrences (cb, m) (calls o)
              = occurrences cb globals + occurrences cb locals) /\
  (forall cb A, cb ∈ local_of b (msg_class m, A) -> A <> sender m ->
                cb ∉ globals -> cb ∉ locals -> (cb, m) ∉ calls o) /\
  same_bus (state o) b.
Proof.
  intros Hq Hfg Hfl. cbv zeta. rewrite broadcast_quiet by done. simpl.
  split_and!; [done..| | |apply touched_same_bus].
  - intros cb. by rewrite occurrences_app, !occurrences_map_pair.
  - intros cb A _ _ Hg Hl Hin.
    apply elem_of_app in Hin as [Hin|Hin];
      apply list_elem_of_fmap in Hin as (c & [= <-] & Hc); done.
Qed.

(** ** SimpleMessageBus.broadcast *)

Lemma simple_invoke_state call args cb b :
  state (SimpleMessageBus.invoke call args cb b) = state (call cb args b).
Proof.
  unfold SimpleMessageBus.invoke, bind, tell. simpl.
  by destruct (result (call cb args b)).
Qed.

Lemma simple_invoke_quiet call args cb b :
  quiet call ->
  SimpleMessageBus.invoke call args cb b = Outcome (Ok tt) b [(cb, args)].
Proof.
  intros Hq. unfold SimpleMessageBus.invoke, bind, tell. simpl. by rewrite Hq.
Qed.

Lemma simple_invoke_preserves {X} (view : SimpleBus -> X) call args :
  preserves view (fun cb => call cb args) ->
  preserves view (SimpleMessageBus.invoke call args).
Proof. intros Hkeep cb b. rewrite simple_invoke_state. apply Hkeep. Qed.

Lemma simple_broadcast_unknown call fuel type args b :
  type ∉ _message_types b ->
  SimpleMessageBus.broadcast call fuel type args b = Outcome (Ok tt) b [].
Proof.
  intros Hno. unfold SimpleMessageBus.broadcast. rewrite bind_gets.
  by rewrite (proj2 (py_in_false _ _) Hno).
Qed.

Lemma simple_broadcast_eq_snapshot call fuel type args b :
  preserves (fun b => callbacks_of b type) (fun cb => call cb args) ->
  length (callbacks_of b type) < fuel ->
  SimpleMessageBus.broadcast call fuel type args b =
  simple_broadcast_snapshot call type args b.
Proof.
  intros Hkeep Hfuel.
  unfold SimpleMessageBus.broadcast, simple_broadcast_snapshot.
  rewrite !bind_gets. destruct (negb _); [done|].
  rewrite !(bind_ok_silent _ _ _ _ _ (callbacks_getitem_eq _ b)).
  rewrite for_in_snapshot;
    [|by apply simple_invoke_preserves|by rewrite callbacks_of_touch].
  by rewrite callbacks_of_touch.
Qed.

Lemma simple_broadcast_quiet call fuel type args b :
  quiet call ->
  type ∈ _message_types b ->
  length (callbacks_of b type) < fuel ->
  SimpleMessageBus.broadcast call fuel type args b =
  Outcome (Ok tt) (with_callbacks (dd_touch type) b)
    (map (fun cb => (cb, args)) (callbacks_of b type)).
Proof.
  intros Hq Hin Hfuel. rewrite simple_broadcast_eq_snapshot; [|by intros ??; rewrite Hq|done].
  unfold simple_broadcast_snapshot. rewrite bind_gets.
  rewrite (proj2 (py_in_true _ _) Hin). simpl.
  rewrite (bind_ok_silent _ _ _ _ _ (callbacks_getitem_eq _ b)).
  apply each_pure. intros. by apply simple_invoke_quiet.
Qed.

(** C9.  [broadcast] of a type the bus was not built with returns at once:
    no error, no callback invoked, the bus untouched, whatever the
    callbacks are.  For a type of the bus, when the callbacks it invokes
    return normally and leave the bus alone, it invokes the callbacks
    registered for the type, in subscription order, each with the
    arguments of the broadcast. *)
Theorem simple_broadcast_dispatch
  (call : SimpleCallbacks) (fuel : nat) (type : string) (args : list Z)
  (sb : SimpleBus) :
  let o := SimpleMessageBus.broadcast call fuel type args sb in
  (type ∉ _message_types sb -> o = Outcome (Ok tt) sb []) /\
  (type ∈ _message_types sb -> quiet call ->
   length (callbacks_of sb type) < fuel ->
   result o = Ok tt /\
   calls o = map (fun cb => (cb, args)) (callbacks_of sb type) /\
   same_simple_bus (state o) sb).
Proof.
  cbv zeta. split.
  - apply simple_broadcast_unknown.
  - intros Hin Hq Hfuel. rewrite simple_broadcast_quiet by done. simpl.
    split_and!; [done..|]. apply same_simple_bus_touch.
Qed.

(** ** Dispatch and callbacks that change the registry *)

(** C5, as the code has it.  Neither [MessageBus.broadcast] nor
    [SimpleMessageBus.broadcast] takes a snapshot: each walks the live
    list by position.  The dispatch is the dispatch over a snapshot taken
    at the start of [broadcast] exactly as long as the callbacks it
    invokes leave the lists it dispatches to as they found them. *)
Theorem dispatch_over_live_list
  (call : Callbacks) (scall : SimpleCallbacks) (fuel : nat)
  (m : Message) (b : Bus) (type : string) (args : list Z) (sb : SimpleBus) :
  preserves (fun b => global_of b (msg_class m)) (fun cb => call cb m) ->
  preserves (fun b => local_of b (msg_class m, sender m)) (fun cb => call cb m) ->
  preserves (fun b => callbacks_of b type) (fun cb => scall cb args) ->
  length (global_of b (msg_class m)) < fuel ->
  length (local_of b (msg_class m, sender m)) < fuel ->
  length (callbacks_of sb type) < fuel ->
  MessageBus.broadcast call fuel m b = broadcast_snapshot call m b /\
  SimpleMessageBus.broadcast scall fuel type args sb =
    simple_broadcast_snapshot scall type args sb.
Proof.
  intros Hg Hl Hs Hfg Hfl Hfs. split.
  - by apply broadcast_eq_snapshot.
  - by apply simple_broadcast_eq_snapshot.
Qed.

(** ** QueuingMessageBus *)

Lemma broadcast_touch_global call fuel m b :
  MessageBus.broadcast call fuel m (with_global (dd_touch (msg_class m)) b) =
  MessageBus.broadcast call fuel m b.
Proof.
  unfold MessageBus.broadcast.
  rewrite !(bind_ok_silent _ _ _ _ _ (global_getitem_eq _ _)).
  unfold with_global. simpl. by rewrite dd_touch_idemp.
Qed.

(** With nobody to receive it the message joins the backlog of its
    class, whatever the callbacks are. *)
Lemma queuing_broadcast_queues call fuel m b :
  global_of b (msg_class m) = [] ->
  local_of b (msg_class m, sender m) = [] ->
  QueuingMessageBus.broadcast call fuel m b =
  Outcome (Ok tt)
    (with_queue (<[msg_class m := queue_of b (msg_class m) ++ [m]]>)
       (touched m b)) [].
Proof.
  intros Hg Hl. unfold QueuingMessageBus.broadcast.
  rewrite (bind_ok_silent _ _ _ _ _ (global_getitem_eq _ b)), Hg. simpl.
  rewrite (bind_ok_silent _ _ _ _ _ (local_getitem_eq _ _)).
  change (local_of (with_global _ b) ?p) with (local_of b p). rewrite Hl. simpl.
  rewrite (bind_ok_silent _ _ _ _ _ (queue_getitem_eq _ _)).
  unfold modify, with_queue, touched. simpl. by rewrite dd_insert_touch.
Qed.

(** With somebody to receive it the message is dispatched as the base
    class does. *)
Lemma queuing_broadcast_dispatches call fuel m b :
  global_of b (msg_class m) <> [] \/ local_of b (msg_class m, sender m) <> [] ->
  QueuingMessageBus.broadcast call fuel m b = MessageBus.broadcast call fuel m b.
Proof.
  intros Hsome. unfold QueuingMessageBus.broadcast.
  rewrite (bind_ok_silent _ _ _ _ _ (global_getitem_eq _ b)).
  destruct (global_of b (msg_class m)) as [|cb g] eqn:Hg; simpl.
  - destruct Hsome as [?|Hl]; [done|].
    rewrite (bind_ok_silent _ _ _ _ _ (local_getitem_eq _ _)).
    change (local_of (with_global _ b) ?p) with (local_of b p).
    destruct (local_of b (msg_class m, sender m)) as [|cb l] eqn:Hl'; [done|].
    simpl. rewrite touch_local_registered.
    + apply broadcast_touch_global.
    + change (local_of (with_global _ b) ?p) with (local_of b p).
      by rewrite Hl'.
  - apply broadcast_touch_global.
Qed.

Lemma global_of_touched m b t : global_of (touched m b) t = global_of b t.
Proof. apply (touched_same_bus m b). Qed.

Lemma local_of_touched m b p : local_of (touched m b) p = local_of b p.
Proof. apply (touched_same_bus m b). Qed.

Lemma with_queue_insert_insert t x y b :
  with_queue (<[t := x]>) (with_queue (<[t := y]>) b) = with_queue (<[t := x]>) b.
Proof. unfold with_queue. simpl. by rewrite insert_insert_eq. Qed.

Lemma length_deliveries b m :
  length (deliveries b m) =
  length (global_of b (msg_class m)) + length (local_of b (msg_class m, sender m)).
Proof. unfold deliveries. by rewrite length_app, !length_map. Qed.

Lemma deliveries_nil b m :
  deliveries b m = [] <->
  global_of b (msg_class m) = [] /\ local_of b (msg_class m, sender m) = [].
Proof.
  unfold deliveries. split.
  - intros Hnil. apply app_eq_nil in Hnil as [Hg Hl].
    by apply fmap_nil_inv in Hg, Hl.
  - by intros [-> ->].
Qed.

Lemma global_of_after_broadcast m b t :
  global_of (after_broadcast m b) t = global_of b t.
Proof.
  unfold after_broadcast. destruct (deliveries b m); [|apply global_of_touched].
  change (global_of (with_queue _ ?x) t) with (global_of x t).
  apply global_of_touched.
Qed.

Lemma local_of_after_broadcast m b p :
  local_of (after_broadcast m b) p = local_of b p.
Proof.
  unfold after_broadcast. destruct (deliveries b m); [|apply local_of_touched].
  change (local_of (with_queue _ ?x) p) with (local_of x p).
  apply local_of_touched.
Qed.

Lemma deliveries_after_broadcast m b m' :
  deliveries (after_broadcast m b) m' = deliveries b m'.
Proof.
  unfold deliveries.
  by rewrite global_of_after_broadcast, local_of_after_broadcast.
Qed.

(** A class with a global receiver gets no new backlog. *)
Lemma queue_of_after_broadcast m b t :
  global_of b t <> [] -> queue_of (after_broadcast m b) t = queue_of b t.
Proof.
  intros Hg. unfold after_broadcast.
  destruct (deliveries b m) eqn:Hd; [|done].
  apply deliveries_nil in Hd as [Hgm _].
  unfold queue_of, touched. simpl. apply dd_peek_insert_ne. congruence.
Qed.

Lemma after_broadcast_with_queue m t x b :
  global_of b t <> [] ->
  after_broadcast m (with_queue (<[t := x]>) b) =
  with_queue (<[t := x]>) (after_broadcast m b).
Proof.
  intros Hg. unfold after_broadcast.
  change (deliveries (with_queue _ b) m) with (deliveries b m).
  destruct (deliveries b m) eqn:Hd; [|done].
  apply deliveries_nil in Hd as [Hgm _].
  assert (t <> msg_class m) as Hne by congruence.
  unfold with_queue, touched, queue_of. simpl.
  rewrite dd_peek_insert_ne by done. f_equal. by apply insert_insert_ne.
Qed.

Lemma replayed_with_queue t x q b :
  global_of b t <> [] ->
  foldl (fun b m => after_broadcast m b) (with_queue (<[t := x]>) b) q =
  with_queue (<[t := x]>) (foldl (fun b m => after_broadcast m b) b q).
Proof.
  revert b. induction q as [|m q IH]; intros b Hg; simpl; [done|].
  rewrite after_broadcast_with_queue by done.
  apply IH. by rewrite global_of_after_broadcast.
Qed.

(** A queuing broadcast to quiet callbacks: the message is delivered to
    the receivers there are, or joins the backlog when there are none. *)
Lemma queuing_broadcast_quiet call fuel m b :
  quiet call ->
  length (deliveries b m) < fuel ->
  QueuingMessageBus.broadcast call fuel m b =
  Outcome (Ok tt) (after_broadcast m b) (deliveries b m).
Proof.
  intros Hq Hfuel. unfold after_broadcast.
  rewrite length_deliveries in Hfuel.
  destruct (deliveries b m) as [|e d] eqn:Hd.
  - apply deliveries_nil in Hd as [Hg Hl]. by apply queuing_broadcast_queues.
  - rewrite queuing_broadcast_dispatches.
    + rewrite broadcast_quiet by (done || lia). by rewrite <- Hd.
    + destruct (global_of b (msg_class m)) eqn:Hg; [|by left].
      destruct (local_of b (msg_class m, sender m)) eqn:Hl; [|by right].
      exfalso. assert (deliveries b m = []) as Hnil; [|by rewrite Hnil in Hd].
      apply deliveries_nil. done.
Qed.

(** Re-broadcasting a fixed sequence of messages to quiet callbacks. *)
Lemma each_broadcast_quiet call fuel q b :
  quiet call ->
  Forall (fun m => length (deliveries b m) < fuel) q ->
  each (QueuingMessageBus.broadcast call fuel) q b =
  Outcome (Ok tt) (foldl (fun b m => after_broadcast m b) b q)
    (flat_map (deliveries b) q).
Proof.
  intros Hq. revert b. induction q as [|m q IH]; intros b Hfuel; [done|].
  apply Forall_cons in Hfuel as [Hfm Hfuel].
  simpl. erewrite bind_ok; [|by apply queuing_broadcast_quiet].
  rewrite IH.
  - simpl. f_equal. f_equal. apply flat_map_ext. intros.
    apply deliveries_after_broadcast.
  - eapply Forall_impl; [done|]. intros m'. simpl.
    by rewrite deliveries_after_broadcast.
Qed.

(** The loop of [subscribe_globally], for quiet callbacks and a class
    that has a global receiver: it pops and dispatches the backlog message
    by message, first in first out, and leaves it empty. *)
Lemma drain_quiet call t q fuel b :
  quiet call ->
  queue_of b t = q ->
  global_of b t <> [] ->
  Forall (fun m => length (deliveries b m) + length q < fuel) q ->
  length q < fuel ->
  QueuingMessageBus.drain call fuel t b =
  Outcome (Ok tt)
    (with_queue (<[t := []]>) (foldl (fun b m => after_broadcast m b) b q))
    (flat_map (deliveries b) q).
Proof.
  intros Hq. revert fuel b.
  induction q as [|m q IH]; intros fuel b Hqueue Hg Hfuel Hlen;
    (destruct fuel as [|fuel]; [simpl in Hlen; lia|]); simpl.
  - rewrite (bind_ok_silent _ _ _ _ _ (queue_getitem_eq _ _)), Hqueue. simpl.
    unfold ret. f_equal. unfold with_queue. f_equal. by apply dd_touch_empty.
  - apply Forall_cons in Hfuel as [Hfm Hfuel]. simpl in Hfm, Hlen.
    rewrite (bind_ok_silent _ _ _ _ _ (queue_getitem_eq _ _)), Hqueue. simpl.
    rewrite (bind_ok_silent _ _ _ _ _ (queue_getitem_eq _ _)).
    rewrite queue_of_touch, Hqueue.
    rewrite bind_modify.
    set (b2 := with_queue (<[t := q]>) _).
    assert (b2 = with_queue (<[t := q]>) b) as ->.
    { unfold b2, with_queue. simpl. by rewrite !dd_insert_touch. }
    erewrite bind_ok; [|apply queuing_broadcast_quiet; [done|]].
    2:{ change (deliveries (with_queue _ b) m) with (deliveries b m). lia. }
    change (deliveries (with_queue _ b) m) with (deliveries b m).
    rewrite after_broadcast_with_queue by done.
    rewrite (IH fuel).
    + simpl. f_equal.
      * rewrite replayed_with_queue by by rewrite global_of_after_broadcast.
        by rewrite with_queue_insert_insert.
      * f_equal. apply flat_map_ext. intros m'.
        change (deliveries (with_queue _ ?x) m') with (deliveries x m').
        apply deliveries_after_broadcast.
    + unfold queue_of. simpl. apply dd_peek_insert_eq.
    + change (global_of (with_queue _ ?x) t) with (global_of x t).
      by rewrite global_of_after_broadcast.
    + eapply Forall_impl; [done|]. intros m'. simpl.
      change (deliveries (with_queue _ ?x) m') with (deliveries x m').
      rewrite deliveries_after_broadcast. lia.
    + lia.
Qed.

Lemma queue_len_eq t b :
  QueuingMessageBus.queue_len t b =
  Outcome (Ok (length (queue_of b t))) (with_queue (dd_touch t) b) [].
Proof.
  unfold QueuingMessageBus.queue_len.
  by rewrite (bind_ok_silent _ _ _ _ _ (queue_getitem_eq _ _)).
Qed.

Lemma replay_fuel_enough b b' t fuel :
  replay_fuel b t <= fuel ->
  queue_of b' t = queue_of b t ->
  (forall m, length (deliveries b' m) <= S (length (deliveries b m))) ->
  Forall (fun m => length (deliveries b' m) + length (queue_of b' t) < fuel)
    (queue_of b' t) /\
  length (queue_of b' t) < fuel.
Proof.
  unfold replay_fuel. intros Hfuel Hq Hd. rewrite Hq. split; [|lia].
  apply Forall_forall. intros m Hm. specialize (Hd m).
  assert (length (deliveries b m)
          <= max_list (map (fun m => length (deliveries b m)) (queue_of b t))).
  { apply max_list_elem_of_le, list_elem_of_fmap. eauto. }
  lia.
Qed.

Lemma deliveries_subscribed t cb b m :
  deliveries (with_global (<[t := global_of b t ++ [cb]]>) b) m =
  map (fun c => (c, m))
    (if decide (t = msg_class m) then global_of b t ++ [cb]
     else global_of b (msg_class m)) ++
  map (fun c => (c, m)) (local_of b (msg_class m, sender m)).
Proof.
  unfold deliveries. f_equal. f_equal.
  unfold global_of. simpl. apply dd_peek_insert.
Qed.

Lemma subscribed_fuel_enough t cb b fuel :
  replay_fuel b t <= fuel ->
  let b' := with_global (<[t := global_of b t ++ [cb]]>) b in
  global_of b' t <> [] /\
  Forall (fun m => length (deliveries b' m) + length (queue_of b t) < fuel)
    (queue_of b t) /\
  length (queue_of b t) < fuel.
Proof.
  intros Hfuel b'. split.
  - unfold b', global_of. simpl. rewrite dd_peek_insert_eq.
    by destruct (dd_peek t (global_receivers b)).
  - apply (replay_fuel_enough b b' t fuel Hfuel eq_refl).
    intros m. unfold b'. rewrite deliveries_subscribed, !length_deliveries.
    rewrite length_app, !length_map.
    case_decide; [subst; rewrite length_app; simpl|]; lia.
Qed.

(** [subscribe_globally] on a queuing bus, for quiet callbacks: the new
    callback is registered and the whole backlog of the class goes,
    first in first out, to every receiver there is by then. *)
Lemma queuing_subscribe_globally_quiet call fuel t cb b :
  quiet call ->
  replay_fuel b t <= fuel ->
  let b' := with_global (<[t := global_of b t ++ [cb]]>) b in
  QueuingMessageBus.subscribe_globally call fuel t cb b =
  Outcome (Ok tt)
    (with_queue (<[t := []]>)
       (foldl (fun b m => after_broadcast m b) b' (queue_of b t)))
    (flat_map (deliveries b') (queue_of b t)).
Proof.
  intros Hq Hfuel b'. unfold QueuingMessageBus.subscribe_globally.
  rewrite (bind_ok_silent _ _ _ _ _ (subscribe_globally_eq _ _ _)).
  fold b'.
  destruct (subscribed_fuel_enough t cb b fuel Hfuel) as (Hg & Hall & Hlen).
  by apply drain_quiet.
Qed.

(** The replay the description asks for, for quiet callbacks. *)
Lemma subscribe_globally_snapshot_quiet call fuel t cb b :
  quiet call ->
  replay_fuel b t <= fuel ->
  let b' := with_global (<[t := global_of b t ++ [cb]]>) b in
  subscribe_globally_snapshot call fuel t cb b =
  Outcome (Ok tt)
    (with_queue (<[t := []]>)
       (foldl (fun b m => after_broadcast m b) b' (queue_of b t)))
    (flat_map (deliveries b') (queue_of b t)).
Proof.
  intros Hq Hfuel b'. unfold subscribe_globally_snapshot.
  rewrite (bind_ok_silent _ _ _ _ _ (subscribe_globally_eq _ _ _)).
  fold b'.
  rewrite (bind_ok_silent _ _ _ _ _ (queue_getitem_eq _ _)).
  rewrite bind_modify.
  destruct (subscribed_fuel_enough t cb b fuel Hfuel) as (Hg & Hall & Hlen).
  fold b' in Hg, Hall.
  set (b2 := with_queue (<[t := []]>) _).
  assert (b2 = with_queue (<[t := []]>) b') as ->.
  { unfold b2, with_queue. simpl. by rewrite dd_insert_touch. }
  change (queue_of b' t) with (queue_of b t).
  rewrite (each_broadcast_quiet call fuel); [|done|].
  - by rewrite replayed_with_queue.
  - eapply Forall_impl; [done|]. intros m. simpl.
    change (deliveries (with_queue _ b') m) with (deliveries b' m). lia.
Qed.

Lemma occurrences_deliveries_other b cb m m' :
  m' <> m -> occurrences (cb, m) (deliveries b m') = 0.
Proof.
  intros Hne. unfold deliveries.
  by rewrite occurrences_app, !occurrences_map_other.
Qed.

Lemma occurrences_replay b cb m l :
  occurrences (cb, m) (flat_map (deliveries b) l) =
  occurrences m l * occurrences (cb, m) (deliveries b m).
Proof.
  induction l as [|m' l IH]; [done|].
  simpl. rewrite occurrences_cons, occurrences_app, IH.
  destruct (decide (m' = m)) as [->|Hne]; [lia|].
  rewrite occurrences_deliveries_other by done. lia.
Qed.

(** C1.  A message broadcast on a queuing bus while nobody is registered
    globally for its class or locally for its class and sender joins the
    end of the backlog of its class, which grows by one, and no callback
    runs, whatever the callbacks are.  A [subscribe_globally] for the
    class that follows, when the callbacks invoked during the replay
    return normally and leave the bus alone, replays the backlog, first
    in first out, each message as a dispatch on the bus with the new
    callback delivers it:
    for the message that is the new callback alone, invoked once per
    queued broadcast of the message, so exactly once when this broadcast
    was the only one of it waiting.  The backlog is empty afterwards. *)
Theorem queued_then_delivered
  (call : Callbacks) (fuel : nat) (m : Message) (cb : nat) (b : Bus) :
  global_of b (msg_class m) = [] ->
  local_of b (msg_class m, sender m) = [] ->
  let t := msg_class m in
  let waiting := queue_of b t in
  let o1 := QueuingMessageBus.broadcast call fuel m b in
  (result o1 = Ok tt /\ calls o1 = [] /\
   queue_of (state o1) t = waiting ++ [m] /\
   result (QueuingMessageBus.queue_len t b) = Ok (length waiting) /\
   result (QueuingMessageBus.queue_len t (state o1)) = Ok (S (length waiting))) /\
  (quiet call -> replay_fuel (state o1) t <= fuel ->
   let subscribed := state (MessageBus.subscribe_globally t cb b) in
   let o2 := QueuingMessageBus.subscribe_globally call fuel t cb (state o1) in
   result o2 = Ok tt /\
   calls o2 = flat_map (deliveries subscribed) (waiting ++ [m]) /\
   deliveries subscribed m = [(cb, m)] /\
   occurrences (cb, m) (calls o2) = S (occurrences m waiting) /\
   (m ∉ waiting -> occurrences (cb, m) (calls o2) = 1) /\
   result (QueuingMessageBus.queue_len t (state o2)) = Ok 0).
Proof.
  intros Hg Hl. cbv zeta.
  rewrite (queuing_broadcast_queues call fuel m b Hg Hl).
  cbn [result state calls].
  set (b1 := with_queue _ (touched m b)).
  assert (queue_of b1 (msg_class m) = queue_of b (msg_class m) ++ [m]) as Hq1.
  { unfold b1, queue_of. simpl. apply dd_peek_insert_eq. }
  split.
  { rewrite !queue_len_eq, Hq1, length_app. cbn [result length].
    split_and!; try done. f_equal. lia. }
  intros Hq Hfuel.
  rewrite (queuing_subscribe_globally_quiet call fuel _ cb b1 Hq Hfuel).
  rewrite subscribe_globally_eq. cbn [result state calls]. rewrite Hq1.
  set (b' := with_global _ b).
  assert (forall m', deliveries
            (with_global
               (<[msg_class m := global_of b1 (msg_class m) ++ [cb]]>) b1) m'
          = deliveries b' m') as Hsame.
  { intros m'. unfold b'. rewrite !deliveries_subscribed.
    unfold b1. change (global_of (with_queue _ ?x) ?t) with (global_of x t).
    change (local_of (with_queue _ ?x) ?p) with (local_of x p).
    by rewrite !global_of_touched, local_of_touched. }
  rewrite (flat_map_ext _ _ Hsame).
  assert (deliveries b' m = [(cb, m)]) as Hm.
  { unfold b'. rewrite deliveries_subscribed, decide_True by done.
    by rewrite Hg, Hl. }
  rewrite occurrences_replay, Hm, occurrences_app.
  rewrite (occurrences_cons m m []), (occurrences_cons (cb, m) (cb, m) []).
  rewrite !decide_True by done.
  change (occurrences m []) with 0. change (occurrences (cb, m) []) with 0.
  split_and!; [done|done|done|lia| |].
  - intros Hfresh. rewrite occurrences_absent by done. done.
  - rewrite queue_len_eq. cbn [result]. f_equal.
    unfold queue_of. cbn [with_queue message_queue].
    by rewrite dd_peek_insert_eq.
Qed.

(** The test [(message, message.sender) == (messagetype, instance)] sets
    a message against a class, so it never holds and the loop of
    [subscribe_locally] never enters its body. *)
Lemma replay_for_nothing call fuel t inst q b :
  QueuingMessageBus.replay_for call fuel t inst q b = ret tt b.
Proof. induction q as [|m q IH]; simpl; done. Qed.

Lemma queuing_subscribe_locally_eq call fuel t inst cb b :
  QueuingMessageBus.subscribe_locally call fuel t inst cb b =
  Outcome (Ok tt)
    (with_queue (dd_touch t)
       (with_local (<[(t, inst) := local_of b (t, inst) ++ [cb]]>) b)) [].
Proof.
  unfold QueuingMessageBus.subscribe_locally.
  rewrite (bind_ok_silent _ _ _ _ _ (subscribe_locally_eq _ _ _ _)).
  rewrite (bind_ok_silent _ _ _ _ _ (queue_getitem_eq _ _)).
  apply replay_for_nothing.
Qed.

(** C2, at the failing input.  A message of class 0 from sender 7 is
    broadcast on an empty queuing bus and waits in the backlog; callback 1
    then subscribes locally for class 0 and sender 7.  The message is not
    replayed: no callback runs and the message is still waiting.  It is
    so on every bus: [subscribe_locally] registers the callback, invokes
    nobody and leaves every backlog as it is. *)
Theorem local_subscriber_gets_no_backlog :
  let waiting :=
    state (QueuingMessageBus.broadcast silent 5 (msg 0 7 100)
             QueuingMessageBus.init) in
  let o := QueuingMessageBus.subscribe_locally silent 5 0 7 1 waiting in
  (queue_of waiting 0 = [msg 0 7 100] /\
   result o = Ok tt /\
   local_of (state o) (0, 7) = [1] /\
   calls o = [] /\
   queue_of (state o) 0 = [msg 0 7 100] /\
   result (QueuingMessageBus.queue_len 0 (state o)) = Ok 1) /\
  (forall (call : Callbacks) fuel t i cb b,
     let o := QueuingMessageBus.subscribe_locally call fuel t i cb b in
     result o = Ok tt /\
     local_of (state o) (t, i) = local_of b (t, i) ++ [cb] /\
     calls o = [] /\
     forall t', queue_of (state o) t' = queue_of b t').
Proof.
  cbv zeta. split.
  - rewrite queuing_broadcast_queues by reflexivity.
    rewrite queuing_subscribe_locally_eq, queue_len_eq.
    cbn [result state calls]. vm_compute. by split_and!.
  - intros call fuel t i cb b. rewrite queuing_subscribe_locally_eq.
    cbn [result state calls]. split_and!; [done| |done|].
    + unfold local_of at 1. cbn [with_queue with_local local_receivers].
      apply dd_peek_insert_eq.
    + intros t'. by rewrite queue_of_touch.
Qed.

(** C3, as the code has it.  The replay of [subscribe_globally] pops the
    head of the backlog and dispatches it, again and again until the
    backlog is empty.  For callbacks that return normally and leave the
    bus alone this is the snapshot-then-clear replay of the
    description. *)
Theorem global_replay_as_snapshot_then_clear
  (call : Callbacks) (fuel : nat) (t cb : nat) (b : Bus) :
  quiet call ->
  replay_fuel b t <= fuel ->
  QueuingMessageBus.subscribe_globally call fuel t cb b =
  subscribe_globally_snapshot call fuel t cb b.
Proof.
  intros Hq Hfuel.
  rewrite queuing_subscribe_globally_quiet by done.
  by rewrite subscribe_globally_snapshot_quiet.
Qed.

(** C10.  A callback subscribed twice for a class is registered twice.
    One [unsubscribe_globally] (or one [discard_globally], which does the
    same then) takes out the first occurrence only, so the callback stays
    registered, once more than before the two subscriptions, whatever
    the callbacks are.  A broadcast of the class that follows, when the
    callbacks it invokes return normally and leave the bus alone, invokes
    it once per registration that is left: exactly once when it was not
    registered before. *)
Theorem duplicate_subscription_survives
  (call : Callbacks) (fuel : nat) (t cb : nat) (m : Message) (b : Bus) :
  let b2 :=
    state (MessageBus.subscribe_globally t cb
             (state (MessageBus.subscribe_globally t cb b))) in
  let ou := MessageBus.unsubscribe_globally t cb b2 in
  let o := MessageBus.broadcast call fuel m (state ou) in
  (global_of b2 t = global_of b t ++ [cb; cb] /\
   result ou = Ok tt /\
   MessageBus.discard_globally t cb b2 = ou /\
   global_of (state ou) t = remove_first cb (global_of b t ++ [cb; cb]) /\
   occurrences cb (global_of (state ou) t) = S (occurrences cb (global_of b t)) /\
   cb ∈ global_of (state ou) t) /\
  (quiet call -> msg_class m = t ->
   S (length (global_of b t)) < fuel -> length (local_of b (t, sender m)) < fuel ->
   result o = Ok tt /\
   occurrences (cb, m) (calls o) =
     S (occurrences cb (global_of b t)) + occurrences cb (local_of b (t, sender m)) /\
   (cb ∉ global_of b t -> cb ∉ local_of b (t, sender m) ->
    occurrences (cb, m) (calls o) = 1)).
Proof.
  cbv zeta. rewrite !subscribe_globally_eq. cbn [state].
  set (b1 := with_global _ b).
  set (b2 := with_global _ b1).
  assert (global_of b2 t = global_of b t ++ [cb; cb]) as Hb2.
  { unfold b2, b1, global_of. cbn [with_global global_receivers].
    rewrite !dd_peek_insert_eq. by rewrite <- app_assoc. }
  assert (cb ∈ global_of b2 t) as Hin.
  { rewrite Hb2. apply elem_of_app. right. apply elem_of_cons. by left. }
  pose proof (py_remove_present _ _ Hin) as Hrm.
  rewrite discard_globally_eq, Hrm.
  rewrite (unsubscribe_globally_registered _ _ _ _ Hrm). cbn [state result].
  set (b3 := with_global _ b2).
  assert (global_of b3 t = remove_first cb (global_of b t ++ [cb; cb])) as Hb3.
  { unfold b3, global_of at 1. cbn [with_global global_receivers].
    by rewrite dd_peek_insert_eq, Hb2. }
  assert (occurrences cb (global_of b3 t) = S (occurrences cb (global_of b t)))
    as Hcount.
  { pose proof (py_remove_count _ _ _ cb Hrm) as Hc.
    rewrite decide_True in Hc by done. rewrite Hb3, <- Hb2.
    rewrite Hb2 in Hc at 1. rewrite occurrences_app in Hc.
    rewrite !occurrences_cons, decide_True in Hc by done.
    change (occurrences cb []) with 0 in Hc. lia. }
  split.
  { split_and!; try done. apply occurrences_pos. lia. }
  intros Hq <- Hfg Hfl.
  assert (length (global_of b3 (msg_class m)) = S (length (global_of b (msg_class m))))
    as Hlen.
  { rewrite Hb3, <- Hb2.
    destruct (py_remove_first _ _ Hin) as (l1 & l2 & Hl & _ & Hr).
    rewrite Hrm in Hr. injection Hr as ->. rewrite Hb2 in Hl.
    apply (f_equal length) in Hl. rewrite length_app.
    rewrite (length_app l1), (length_app (global_of b (msg_class m))) in Hl.
    simpl in Hl. lia. }
  assert (forall p, local_of b3 p = local_of b p) as Hloc by done.
  rewrite broadcast_quiet by (rewrite ?Hloc; (done || lia)).
  cbn [result calls].
  rewrite occurrences_app, !occurrences_map_pair, Hcount, Hloc.
  split_and!; [done..|].
  intros Hg Hl. rewrite !occurrences_absent by done. done.
Qed.

(** ** Looking a key up leaves no trace

    A lookup in a registry may bind a key that was missing to an empty
    list.  No method of the buses can tell: as long as the callbacks
    cannot, a method run on two buses that hold the same callbacks and
    the same backlog under every key ends the same way on both, with the
    same invocations, and leaves buses that again hold the same under
    every key. *)

Section Blind.
Context {E B : Type} (R : B -> B -> Prop).

Lemma blind_ret {A} (a : A) : blind R (ret (E := E) a).
Proof. by intros b b' HR. Qed.

Lemma blind_raise {A} (e : exn) : blind R (raise (E := E) (A := A) e).
Proof. by intros b b' HR. Qed.

Lemma blind_out_of_fuel {A} : blind R (out_of_fuel (E := E) (A := A)).
Proof. by intros b b' HR. Qed.

Lemma blind_tell (e : E) : blind R (tell e).
Proof. by intros b b' HR. Qed.

Lemma blind_gets {A} (f : B -> A) :
  (forall b b', R b b' -> f b = f b') -> blind R (gets (E := E) f).
Proof.
  intros Hf b b' HR. unfold gets, alike. simpl. by rewrite (Hf b b' HR).
Qed.

Lemma blind_modify (f : B -> B) :
  (forall b b', R b b' -> R (f b) (f b')) -> blind R (modify (E := E) f).
Proof. intros Hf b b' HR. unfold modify, alike. simpl. auto. Qed.

Lemma blind_bind {A A'} (m : M E B A) (f : A -> M E B A') :
  blind R m -> (forall a, blind R (f a)) -> blind R (bind m f).
Proof.
  intros Hm Hf b b' HR. destruct (Hm b b' HR) as (Hres & Hcalls & Hst).
  unfold bind. rewrite <- Hres, <- Hcalls.
  destruct (result (m b)) as [a| |]; [|done..].
  destruct (Hf a _ _ Hst) as (Hres' & Hcalls' & Hst').
  unfold alike. simpl. by rewrite Hres', Hcalls'.
Qed.

Lemma blind_for_in (current : B -> list nat) (body : nat -> M E B unit)
  fuel i :
  (forall b b', R b b' -> current b = current b') ->
  (forall cb, blind R (body cb)) ->
  blind R (for_in current body fuel i).
Proof.
  intros Hcur Hbody. revert i.
  induction fuel as [|fuel IH]; intros i b b' HR; simpl; [done|].
  rewrite <- (Hcur b b' HR).
  destruct (current b !! i) as [cb|]; [|done].
  by apply blind_bind.
Qed.

Lemma blind_each {A} (body : A -> M E B unit) l :
  (forall x, blind R (body x)) -> blind R (each body l).
Proof.
  intros Hbody. induction l as [|x l IH]; simpl; [apply blind_ret|].
  by apply blind_bind.
Qed.
End Blind.

Lemma same_bus_global_of b b' t : same_bus b b' -> global_of b t = global_of b' t.
Proof. intros H. apply H. Qed.

Lemma same_bus_local_of b b' p : same_bus b b' -> local_of b p = local_of b' p.
Proof. intros H. apply H. Qed.

Lemma same_bus_queue_of b b' t : same_bus b b' -> queue_of b t = queue_of b' t.
Proof. intros H. apply H. Qed.

Lemma same_bus_with_global f b b' :
  (forall t, dd_peek t (f (global_receivers b)) = dd_peek t (f (global_receivers b'))) ->
  same_bus b b' -> same_bus (with_global f b) (with_global f b').
Proof. intros Hf (_ & Hl & Hq). by split_and!. Qed.

Lemma same_bus_with_local f b b' :
  (forall p, dd_peek p (f (local_receivers b)) = dd_peek p (f (local_receivers b'))) ->
  same_bus b b' -> same_bus (with_local f b) (with_local f b').
Proof. intros Hf (Hg & _ & Hq). by split_and!. Qed.

Lemma same_bus_with_queue f b b' :
  (forall t, dd_peek t (f (message_queue b)) = dd_peek t (f (message_queue b'))) ->
  same_bus b b' -> same_bus (with_queue f b) (with_queue f b').
Proof. intros Hf (Hg & Hl & _). by split_and!. Qed.

Lemma blind_touch_global t :
  blind same_bus (modify (E := nat * Message) (with_global (dd_touch t))).
Proof.
  apply blind_modify. intros b b' H. apply same_bus_with_global; [|done].
  intros t'. rewrite !dd_peek_touch. apply H.
Qed.

Lemma blind_touch_local p :
  blind same_bus (modify (E := nat * Message) (with_local (dd_touch p))).
Proof.
  apply blind_modify. intros b b' H. apply same_bus_with_local; [|done].
  intros p'. rewrite !dd_peek_touch. apply H.
Qed.

Lemma blind_touch_queue t :
  blind same_bus (modify (E := nat * Message) (with_queue (dd_touch t))).
Proof.
  apply blind_modify. intros b b' H. apply same_bus_with_queue; [|done].
  intros t'. rewrite !dd_peek_touch. apply H.
Qed.

Lemma blind_set_global t l :
  blind same_bus (modify (E := nat * Message) (with_global (<[t := l]>))).
Proof.
  apply blind_modify. intros b b' H. apply same_bus_with_global; [|done].
  intros t'. rewrite !dd_peek_insert. case_decide; [done|]. apply H.
Qed.

Lemma blind_set_local p l :
  blind same_bus (modify (E := nat * Message) (with_local (<[p := l]>))).
Proof.
  apply blind_modify. intros b b' H. apply same_bus_with_local; [|done].
  intros p'. rewrite !dd_peek_insert. case_decide; [done|]. apply H.
Qed.

Lemma blind_set_queue t q :
  blind same_bus (modify (E := nat * Message) (with_queue (<[t := q]>))).
Proof.
  apply blind_modify. intros b b' H. apply same_bus_with_queue; [|done].
  intros t'. rewrite !dd_peek_insert. case_decide; [done|]. apply H.
Qed.

Lemma blind_global_getitem t : blind same_bus (MessageBus.global_getitem t).
Proof.
  apply blind_bind; [apply blind_touch_global|]. intros _.
  apply blind_gets. intros b b'. apply same_bus_global_of.
Qed.

Lemma blind_local_getitem p : blind same_bus (MessageBus.local_getitem p).
Proof.
  apply blind_bind; [apply blind_touch_local|]. intros _.
  apply blind_gets. intros b b'. apply same_bus_local_of.
Qed.

Lemma blind_queue_getitem t : blind same_bus (QueuingMessageBus.queue_getitem t).
Proof.
  apply blind_bind; [apply blind_touch_queue|]. intros _.
  apply blind_gets. intros b b'. apply same_bus_queue_of.
Qed.

Lemma blind_subscribe_globally t cb :
  blind same_bus (MessageBus.subscribe_globally t cb).
Proof.
  apply blind_bind; [apply blind_global_getitem|]. intros l.
  apply blind_set_global.
Qed.

Lemma blind_subscribe_locally t i cb :
  blind same_bus (MessageBus.subscribe_locally t i cb).
Proof.
  apply blind_bind; [apply blind_local_getitem|]. intros l.
  apply blind_set_local.
Qed.

Lemma blind_unsubscribe_globally t cb :
  blind same_bus (MessageBus.unsubscribe_globally t cb).
Proof.
  apply blind_bind; [apply blind_global_getitem|]. intros l.
  destruct (negb (py_in cb l)); [apply blind_raise|].
  apply blind_bind; [apply blind_global_getitem|]. intros l'.
  destruct (py_remove cb l'); [apply blind_set_global|apply blind_raise].
Qed.

Lemma blind_unsubscribe_locally t i cb :
  blind same_bus (MessageBus.unsubscribe_locally t i cb).
Proof.
  apply blind_bind; [apply blind_local_getitem|]. intros l.
  destruct (negb (py_in cb l)); [apply blind_raise|].
  apply blind_bind; [apply blind_local_getitem|]. intros l'.
  destruct (py_remove cb l'); [apply blind_set_local|apply blind_raise].
Qed.

Lemma blind_discard_globally t cb :
  blind same_bus (MessageBus.discard_globally t cb).
Proof.
  apply blind_bind; [apply blind_global_getitem|]. intros l.
  destruct (py_in cb l); [apply blind_unsubscribe_globally|apply blind_ret].
Qed.

(** [discard_locally] asks whether the key is bound, which is not the
    same on the two buses; its outcome does not depend on the answer. *)
Lemma blind_discard_locally t i cb :
  blind same_bus (MessageBus.discard_locally t i cb).
Proof.
  intros b b' H. rewrite !discard_locally_eq.
  rewrite <- (same_bus_local_of b b' (t, i) H).
  destruct (py_remove cb (local_of b (t, i))) as [l'|]; [|done].
  by apply (blind_set_local (t, i) l').
Qed.

Section BlindDispatch.
Variable call : Callbacks.
Hypothesis call_blind : forall cb m, blind same_bus (call cb m).

Lemma blind_invoke m cb : blind same_bus (MessageBus.invoke call m cb).
Proof. apply blind_bind; [apply blind_tell|]. intros _. apply call_blind. Qed.

Lemma blind_broadcast fuel m : blind same_bus (MessageBus.broadcast call fuel m).
Proof.
  apply blind_bind; [apply blind_global_getitem|]. intros _.
  apply blind_bind.
  { apply blind_for_in; [|apply blind_invoke].
    intros b b'. apply same_bus_global_of. }
  intros _. apply blind_bind; [apply blind_local_getitem|]. intros _.
  apply blind_for_in; [|apply blind_invoke].
  intros b b'. apply same_bus_local_of.
Qed.

Lemma blind_queuing_broadcast fuel m :
  blind same_bus (QueuingMessageBus.broadcast call fuel m).
Proof.
  apply blind_bind; [apply blind_global_getitem|]. intros g.
  destruct (negb (length g =? 0)); [apply blind_broadcast|].
  apply blind_bind; [apply blind_local_getitem|]. intros l.
  destruct (negb (length l =? 0)); [apply blind_broadcast|].
  apply blind_bind; [apply blind_queue_getitem|]. intros q.
  apply blind_set_queue.
Qed.

Lemma blind_drain fuel t : blind same_bus (QueuingMessageBus.drain call fuel t).
Proof.
  induction fuel as [|fuel IH]; simpl; [apply blind_out_of_fuel|].
  apply blind_bind; [apply blind_queue_getitem|]. intros q.
  destruct (length q =? 0); [apply blind_ret|].
  apply blind_bind; [apply blind_queue_getitem|]. intros [|m q'].
  - apply blind_raise.
  - apply blind_bind; [apply blind_set_queue|]. intros _.
    apply blind_bind; [apply blind_queuing_broadcast|]. intros _. apply IH.
Qed.

Lemma blind_queuing_subscribe_globally fuel t cb :
  blind same_bus (QueuingMessageBus.subscribe_globally call fuel t cb).
Proof.
  apply blind_bind; [apply blind_subscribe_globally|]. intros _.
  apply blind_drain.
Qed.

Lemma blind_queuing_subscribe_locally fuel t i cb :
  blind same_bus (QueuingMessageBus.subscribe_locally call fuel t i cb).
Proof.
  intros b b' H. rewrite !queuing_subscribe_locally_eq.
  rewrite <- (same_bus_local_of b b' (t, i) H).
  unfold alike. simpl. split_and!; [done..|].
  destruct (blind_set_local (t, i) (local_of b (t, i) ++ [cb]) b b' H)
    as (_ & _ & Hst).
  destruct (blind_touch_queue t _ _ Hst) as (_ & _ & Hst').
  exact Hst'.
Qed.
End BlindDispatch.

Lemma blind_clear t : blind same_bus (QueuingMessageBus.clear t).
Proof.
  apply blind_bind; [apply blind_queue_getitem|]. intros _.
  apply blind_set_queue.
Qed.

Lemma blind_queue_len t : blind same_bus (QueuingMessageBus.queue_len t).
Proof.
  apply blind_bind; [apply blind_queue_getitem|]. intros q. apply blind_ret.
Qed.

(** The methods of the two message buses that look a registration or a
    backlog up by its key, at once.  [reset], which walks the keys of the
    registries instead, is not among them. *)
Theorem lookups_leave_no_trace (call : Callbacks) (fuel : nat) :
  (forall cb m, blind same_bus (call cb m)) ->
  (forall t cb, blind same_bus (MessageBus.subscribe_globally t cb)) /\
  (forall t i cb, blind same_bus (MessageBus.subscribe_locally t i cb)) /\
  (forall t cb, blind same_bus (MessageBus.unsubscribe_globally t cb)) /\
  (forall t i cb, blind same_bus (MessageBus.unsubscribe_locally t i cb)) /\
  (forall t cb, blind same_bus (MessageBus.discard_globally t cb)) /\
  (forall t i cb, blind same_bus (MessageBus.discard_locally t i cb)) /\
  (forall m, blind same_bus (MessageBus.broadcast call fuel m)) /\
  (forall m, blind same_bus (QueuingMessageBus.broadcast call fuel m)) /\
  (forall t cb,
     blind same_bus (QueuingMessageBus.subscribe_globally call fuel t cb)) /\
  (forall t i cb,
     blind same_bus (QueuingMessageBus.subscribe_locally call fuel t i cb)) /\
  (forall t, blind same_bus (QueuingMessageBus.clear t)) /\
  (forall t, blind same_bus (QueuingMessageBus.queue_len t)).
Proof.
  intros Hcall. split_and!; intros.
  - apply blind_subscribe_globally.
  - apply blind_subscribe_locally.
  - apply blind_unsubscribe_globally.
  - apply blind_unsubscribe_locally.
  - apply blind_discard_globally.
  - apply blind_discard_locally.
  - by apply blind_broadcast.
  - by apply blind_queuing_broadcast.
  - by apply blind_queuing_subscribe_globally.
  - apply blind_queuing_subscribe_locally.
  - apply blind_clear.
  - apply blind_queue_len.
Qed.

(** The same for the simple bus. *)

Lemma same_simple_bus_with_callbacks f b b' :
  (forall t, dd_peek t (f (_callbacks b)) = dd_peek t (f (_callbacks b'))) ->
  same_simple_bus b b' ->
  same_simple_bus (with_callbacks f b) (with_callbacks f b').
Proof. intros Hf [Ht _]. by split. Qed.

Lemma blind_touch_callbacks t :
  blind same_simple_bus
    (modify (E := nat * list Z) (with_callbacks (dd_touch t))).
Proof.
  apply blind_modify. intros b b' H.
  apply same_simple_bus_with_callbacks; [|done].
  intros t'. rewrite !dd_peek_touch. apply H.
Qed.

Lemma blind_set_callbacks t l :
  blind same_simple_bus
    (modify (E := nat * list Z) (with_callbacks (<[t := l]>))).
Proof.
  apply blind_modify. intros b b' H.
  apply same_simple_bus_with_callbacks; [|done].
  intros t'. rewrite !dd_peek_insert. case_decide; [done|]. apply H.
Qed.

Lemma blind_callbacks_getitem t :
  blind same_simple_bus (SimpleMessageBus.callbacks_getitem t).
Proof.
  apply blind_bind; [apply blind_touch_callbacks|]. intros _.
  apply blind_gets. intros b b' H. apply H.
Qed.

Lemma blind_known t :
  blind same_simple_bus
    (gets (E := nat * list Z) (fun self => py_in t (_message_types self))).
Proof. apply blind_gets. intros b b' [Ht _]. by rewrite Ht. Qed.

Theorem simple_lookups_leave_no_trace (call : SimpleCallbacks) (fuel : nat) :
  (forall cb args, blind same_simple_bus (call cb args)) ->
  (forall t cb, blind same_simple_bus (SimpleMessageBus.subscribe t cb)) /\
  (forall t cb, blind same_simple_bus (SimpleMessageBus.unsubscribe t cb)) /\
  (forall t cb, blind same_simple_bus (SimpleMessageBus.discard t cb)) /\
  (forall t args,
     blind same_simple_bus (SimpleMessageBus.broadcast call fuel t args)).
Proof.
  intros Hcall. split_and!.
  - intros t cb. apply blind_bind; [apply blind_known|]. intros known.
    destruct (negb known); [apply blind_raise|].
    apply blind_bind; [apply blind_callbacks_getitem|]. intros l.
    destruct (py_in cb l); [apply blind_raise|].
    apply blind_bind; [apply blind_callbacks_getitem|]. intros l'.
    apply blind_set_callbacks.
  - intros t cb. apply blind_bind; [apply blind_callbacks_getitem|]. intros l.
    destruct (py_remove cb l); [apply blind_set_callbacks|apply blind_raise].
  - intros t cb. apply blind_bind; [apply blind_callbacks_getitem|]. intros l.
    destruct (py_in cb l); [|apply blind_ret].
    apply blind_bind; [apply blind_callbacks_getitem|]. intros l'.
    destruct (py_remove cb l'); [apply blind_set_callbacks|apply blind_raise].
  - intros t args. apply blind_bind; [apply blind_known|]. intros known.
    destruct (negb known); [apply blind_ret|].
    apply blind_bind; [apply blind_callbacks_getitem|]. intros _.
    apply blind_for_in.
    + intros b b' H. apply H.
    + intros cb. apply blind_bind; [apply blind_tell|]. intros _. apply Hcall.
Qed.

(** ** Reachable states of the simple bus *)

Lemma only_known_types_init types : only_known_types (SimpleMessageBus.init types).
Proof. intros t Hne. by destruct Hne. Qed.

Lemma only_known_types_subscribe t cb b :
  only_known_types b ->
  only_known_types (state (SimpleMessageBus.subscribe t cb b)).
Proof.
  intros Hb. rewrite simple_subscribe_eq.
  destruct (py_in t (_message_types b)) eqn:Hknown; simpl; [|done].
  destruct (py_in cb (callbacks_of b t)); simpl; [done|].
  intros t'. unfold callbacks_of. simpl. rewrite dd_peek_insert.
  case_decide as Ht; [subst t'|apply Hb].
  intros _. by apply py_in_true.
Qed.

Lemma only_known_types_unsubscribe t cb b :
  only_known_types b ->
  only_known_types (state (SimpleMessageBus.unsubscribe t cb b)).
Proof.
  intros Hb. rewrite simple_unsubscribe_eq.
  destruct (py_remove cb (callbacks_of b t)) as [l'|] eqn:Hrm; simpl.
  - intros t'. unfold callbacks_of. simpl. rewrite dd_peek_insert.
    case_decide as Ht; [subst t'|apply Hb].
    intros _. apply Hb. intros Hnil. by rewrite Hnil in Hrm.
  - intros t'. rewrite callbacks_of_touch. apply Hb.
Qed.

Lemma only_known_types_discard t cb b :
  only_known_types b ->
  only_known_types (state (SimpleMessageBus.discard t cb b)).
Proof.
  intros Hb. rewrite simple_discard_eq.
  destruct (py_remove cb (callbacks_of b t)) as [l'|] eqn:Hrm; simpl.
  - intros t'. unfold callbacks_of. simpl. rewrite dd_peek_insert.
    case_decide as Ht; [subst t'|apply Hb].
    intros _. apply Hb. intros Hnil. by rewrite Hnil in Hrm.
  - intros t'. rewrite callbacks_of_touch. apply Hb.
Qed.

(** On a bus built and changed through its methods, a callback that is
    registered for a type is always refused as a duplicate: its type is
    one of the bus. *)
Lemma duplicate_always_refused t cb b :
  only_known_types b ->
  cb ∈ callbacks_of b t ->
  SimpleMessageBus.subscribe t cb b = Outcome (Raise PyException) b [].
Proof.
  intros Hb Hin. rewrite simple_subscribe_eq.
  assert (t ∈ _message_types b) as Hknown.
  { apply Hb. intros Hnil. rewrite Hnil in Hin. by apply elem_of_nil in Hin. }
  rewrite (proj2 (py_in_true _ _) Hknown). simpl.
  by rewrite (proj2 (py_in_true _ _) Hin).
Qed.

(** ** A replay that never ends

    The loop of [subscribe_globally] goes on for as long as the backlog
    is not empty.  When the only receiver of the class unsubscribes
    itself while it handles the first message, the second message is
    queued again as soon as it is popped, and again: no amount of fuel
    lets the call return.  The snapshot-then-clear replay returns, with
    the second message back in the backlog. *)

Lemma drain_step call fuel t b :
  QueuingMessageBus.drain call (S fuel) t b =
  (q <- QueuingMessageBus.queue_getitem t ;;
   if length q =? 0 then ret tt
   else
     q <- QueuingMessageBus.queue_getitem t ;;
     match q with
     | [] => raise IndexError
     | message :: q' =>
         modify (with_queue (<[t := q']>)) ;;
         QueuingMessageBus.broadcast call fuel message ;;
         QueuingMessageBus.drain call fuel t
     end) b.
Proof. reflexivity. Qed.

Lemma drain_without_receiver call m fuel b :
  global_of b (msg_class m) = [] ->
  local_of b (msg_class m, sender m) = [] ->
  queue_of b (msg_class m) = [m] ->
  result (QueuingMessageBus.drain call fuel (msg_class m) b) = OutOfFuel.
Proof.
  revert b. induction fuel as [|fuel IH]; intros b Hg Hl Hq; [done|].
  rewrite drain_step.
  rewrite (bind_ok_silent _ _ _ _ _ (queue_getitem_eq _ _)), Hq.
  cbn [length Nat.eqb].
  rewrite (bind_ok_silent _ _ _ _ _ (queue_getitem_eq _ _)).
  rewrite queue_of_touch, Hq, bind_modify.
  set (b2 := with_queue (<[msg_class m := []]>) _).
  assert (global_of b2 (msg_class m) = []) as Hg2 by done.
  assert (local_of b2 (msg_class m, sender m) = []) as Hl2 by done.
  assert (queue_of b2 (msg_class m) = []) as Hq2.
  { unfold b2, queue_of. simpl. apply dd_peek_insert_eq. }
  rewrite (bind_ok_silent _ _ _ _ _
             (queuing_broadcast_queues call fuel m b2 Hg2 Hl2)).
  apply IH.
  - change (global_of (with_queue _ ?x) ?t) with (global_of x t).
    by rewrite global_of_touched.
  - change (local_of (with_queue _ ?x) ?p) with (local_of x p).
    by rewrite local_of_touched.
  - unfold queue_of at 1. simpl. rewrite dd_peek_insert_eq. by rewrite Hq2.
Qed.

Lemma replay_can_run_forever :
  (forall fuel,
     result (QueuingMessageBus.subscribe_globally unsubscribes_itself fuel 0 1
               backlog_of_two) = OutOfFuel) /\
  result (subscribe_globally_snapshot unsubscribes_itself 10 0 1 backlog_of_two)
    = Ok tt.
Proof.
  split; [|vm_compute; reflexivity].
  intros [|[|[|fuel]]]; [vm_compute; reflexivity..|].
  unfold QueuingMessageBus.subscribe_globally.
  rewrite (bind_ok_silent _ _ _ _ _ (subscribe_globally_eq _ _ _)).
  set (b1 := with_global _ backlog_of_two).
  rewrite drain_step.
  rewrite (bind_ok_silent _ _ _ _ _ (queue_getitem_eq _ _)).
  assert (queue_of b1 0 = [msg 0 7 100; msg 0 8 101]) as Hq
    by (vm_compute; reflexivity).
  rewrite Hq. cbn [length Nat.eqb].
  rewrite (bind_ok_silent _ _ _ _ _ (queue_getitem_eq _ _)).
  rewrite queue_of_touch, Hq, bind_modify.
  set (b2 := with_queue (<[0 := [msg 0 8 101]]>) _).
  assert (QueuingMessageBus.broadcast unsubscribes_itself (S (S fuel))
            (msg 0 7 100) b2 =
          Outcome (Ok tt)
            (state (QueuingMessageBus.broadcast unsubscribes_itself 2
                      (msg 0 7 100) b2))
            [(1, msg 0 7 100)]) as Hfirst
    by (vm_compute; reflexivity).
  unfold bind at 1. rewrite Hfirst. cbn [result state calls].
  set (b3 := state _).
  pose proof (drain_without_receiver unsubscribes_itself (msg 0 8 101)
                (S (S fuel)) b3) as Hloop.
  cbn [msg_class sender msg] in Hloop.
  rewrite Hloop; [done|vm_compute; reflexivity..].
Qed.

(** ** Concrete runs *)

Lemma silent_quiet : quiet silent.
Proof. intros cb m b. reflexivity. Qed.

Lemma simple_silent_quiet : quiet simple_silent.
Proof. intros cb args b. reflexivity. Qed.

(** Scenario A: a message is broadcast on an empty queuing bus, then
    callback 1 subscribes globally. *)
Lemma queued_then_delivered_witness :
  let m := msg 0 7 100 in
  let o1 := QueuingMessageBus.broadcast silent 5 m QueuingMessageBus.init in
  let o2 := QueuingMessageBus.subscribe_globally silent 5 0 1 (state o1) in
  (global_of QueuingMessageBus.init 0 = [] /\
   local_of QueuingMessageBus.init (0, 7) = [] /\
   quiet silent /\ replay_fuel (state o1) 0 <= 5) /\
  result (QueuingMessageBus.queue_len 0 (state o1)) = Ok 1 /\
  occurrences (1, m) (calls o2) = 1 /\
  result (QueuingMessageBus.queue_len 0 (state o2)) = Ok 0.
Proof.
  cbv zeta.
  assert (global_of QueuingMessageBus.init 0 = []) as Hg by reflexivity.
  assert (local_of QueuingMessageBus.init (0, 7) = []) as Hl by reflexivity.
  assert (replay_fuel
            (state (QueuingMessageBus.broadcast silent 5 (msg 0 7 100)
                      QueuingMessageBus.init)) 0 <= 5) as Hfuel
    by (vm_compute; lia).
  destruct (queued_then_delivered silent 5 (msg 0 7 100) 1
              QueuingMessageBus.init Hg Hl) as [Hqueued Hreplay].
  destruct (Hreplay silent_quiet Hfuel) as (_ & _ & _ & _ & Honce & Hempty).
  split_and!.
  - exact Hg.
  - exact Hl.
  - exact silent_quiet.
  - exact Hfuel.
  - apply Hqueued.
  - apply Honce. vm_compute. apply not_elem_of_nil.
  - exact Hempty.
Defined.

(** The replay of a backlog of two to a quiet callback. *)
Lemma global_replay_as_snapshot_then_clear_witness :
  (quiet silent /\ replay_fuel backlog_of_two 0 <= 10) /\
  QueuingMessageBus.subscribe_globally silent 10 0 1 backlog_of_two =
  subscribe_globally_snapshot silent 10 0 1 backlog_of_two.
Proof.
  assert (replay_fuel backlog_of_two 0 <= 10) as Hfuel by (vm_compute; lia).
  split_and!.
  - exact silent_quiet.
  - exact Hfuel.
  - exact (global_replay_as_snapshot_then_clear silent 10 0 1 backlog_of_two
             silent_quiet Hfuel).
Defined.

(** C3, where the claim fails.  With a backlog of two: a callback that
    clears the backlog when it is called gets the first message only from
    the pop-and-dispatch loop of [subscribe_globally], where the
    snapshot-then-clear replay delivers both; and [subscribe_locally]
    replays nothing, where the snapshot-then-clear replay delivers the
    message of the subscribed sender and takes it off the backlog. *)
Lemma replay_is_not_snapshot_then_clear :
  let m7 := msg 0 7 100 in
  let m8 := msg 0 8 101 in
  let code := QueuingMessageBus.subscribe_globally clears_backlog 10 0 1
                backlog_of_two in
  let reference := subscribe_globally_snapshot clears_backlog 10 0 1
                     backlog_of_two in
  let code_local := QueuingMessageBus.subscribe_locally silent 10 0 7 1
                      backlog_of_two in
  let reference_local := subscribe_locally_snapshot silent 10 0 7 1
                           backlog_of_two in
  queue_of backlog_of_two 0 = [m7; m8] /\
  (result code = Ok tt /\ calls code = [(1, m7)]) /\
  (result reference = Ok tt /\ calls reference = [(1, m7); (1, m8)]) /\
  code <> reference /\
  (result code_local = Ok tt /\ calls code_local = [] /\
   queue_of (state code_local) 0 = [m7; m8]) /\
  (result reference_local = Ok tt /\ calls reference_local = [(1, m7)] /\
   queue_of (state reference_local) 0 = [m8]) /\
  code_local <> reference_local.
Proof.
  cbv zeta.
  assert (calls (QueuingMessageBus.subscribe_globally clears_backlog 10 0 1
                   backlog_of_two) = [(1, msg 0 7 100)]) as Hcode
    by (vm_compute; reflexivity).
  assert (calls (subscribe_globally_snapshot clears_backlog 10 0 1
                   backlog_of_two) = [(1, msg 0 7 100); (1, msg 0 8 101)])
    as Href by (vm_compute; reflexivity).
  assert (calls (QueuingMessageBus.subscribe_locally silent 10 0 7 1
                   backlog_of_two) = []) as Hcl by (vm_compute; reflexivity).
  assert (calls (subscribe_locally_snapshot silent 10 0 7 1 backlog_of_two)
          = [(1, msg 0 7 100)]) as Hrl by (vm_compute; reflexivity).
  split_and!; try (vm_compute; reflexivity).
  - intros Heq. rewrite Heq, Href in Hcode. discriminate.
  - intros Heq. rewrite Heq, Hrl in Hcl. discriminate.
Qed.

(** One callback registered both ways, a message from its sender. *)
Lemma broadcast_global_then_local_witness :
  let m := msg 0 7 100 in
  (quiet silent /\
   length (global_of bus_both_ways 0) < 5 /\
   length (local_of bus_both_ways (0, 7)) < 5) /\
  calls (MessageBus.broadcast silent 5 m bus_both_ways) = [(1, m); (1, m)] /\
  (2, m) ∉ calls (MessageBus.broadcast silent 5 m bus_both_ways).
Proof.
  cbv zeta.
  assert (length (global_of bus_both_ways 0) < 5) as Hg by (vm_compute; lia).
  assert (length (local_of bus_both_ways (0, 7)) < 5) as Hl by (vm_compute; lia).
  destruct (broadcast_global_then_local silent 5 (msg 0 7 100) bus_both_ways
              silent_quiet Hg Hl) as (_ & Hcalls & _ & Hother & _).
  split_and!.
  - exact silent_quiet.
  - exact Hg.
  - exact Hl.
  - exact Hcalls.
  - apply (Hother 2 8).
    all: vm_compute.
    + apply list_elem_of_here.
    + discriminate.
    + intros Hin. apply list_elem_of_In in Hin. simpl in Hin.
      destruct Hin as [Hin|[]]. discriminate.
    + intros Hin. apply list_elem_of_In in Hin. simpl in Hin.
      destruct Hin as [Hin|[]]. discriminate.
Defined.

(** C5, where the claim fails.  Callbacks 1 and 2 are registered for class
    0 when the broadcast starts.  When callback 1 unsubscribes itself
    during its invocation the dispatch skips callback 2, which a dispatch
    over a snapshot invokes; when callback 1 subscribes callback 3, the
    dispatch in progress goes on to invoke callback 3.  The simple bus
    skips callback 2 in the same way. *)
Lemma dispatch_is_not_over_a_snapshot :
  let m := msg 0 7 100 in
  let live := MessageBus.broadcast unsubscribes_itself 10 m bus_with_two in
  let snapshot := broadcast_snapshot unsubscribes_itself m bus_with_two in
  let grown := MessageBus.broadcast subscribes_another 10 m bus_with_two in
  let simple := SimpleMessageBus.broadcast simple_unsubscribes_itself 10
                  "foo" [42%Z] simple_bus_with_two in
  (global_of bus_with_two 0 = [1; 2] /\ local_of bus_with_two (0, 7) = []) /\
  (result live = Ok tt /\ calls live = [(1, m)]) /\
  (result snapshot = Ok tt /\ calls snapshot = [(1, m); (2, m)]) /\
  live <> snapshot /\
  (result grown = Ok tt /\ calls grown = [(1, m); (2, m); (3, m)]) /\
  (callbacks_of simple_bus_with_two "foo" = [1; 2] /\
   result simple = Ok tt /\ calls simple = [(1, [42%Z])]).
Proof.
  cbv zeta.
  assert (calls (MessageBus.broadcast unsubscribes_itself 10 (msg 0 7 100)
                   bus_with_two) = [(1, msg 0 7 100)]) as Hlive
    by (vm_compute; reflexivity).
  assert (calls (broadcast_snapshot unsubscribes_itself (msg 0 7 100)
                   bus_with_two) = [(1, msg 0 7 100); (2, msg 0 7 100)])
    as Hsnap by (vm_compute; reflexivity).
  split_and!; try (vm_compute; reflexivity).
  intros Heq. rewrite Heq, Hsnap in Hlive. discriminate.
Qed.

(** A callback that clears the backlog leaves the registries alone. *)
Lemma dispatch_over_live_list_witness :
  let m := msg 0 7 100 in
  (preserves (fun b => global_of b 0) (fun cb => clears_backlog cb m) /\
   preserves (fun b => local_of b (0, 7)) (fun cb => clears_backlog cb m) /\
   preserves (fun b => callbacks_of b "foo") (fun cb => simple_silent cb [42%Z]) /\
   length (global_of bus_both_ways 0) < 5 /\
   length (local_of bus_both_ways (0, 7)) < 5 /\
   length (callbacks_of simple_bus_with_two "foo") < 5) /\
  MessageBus.broadcast clears_backlog 5 m bus_both_ways =
    broadcast_snapshot clears_backlog m bus_both_ways /\
  SimpleMessageBus.broadcast simple_silent 5 "foo" [42%Z] simple_bus_with_two =
    simple_broadcast_snapshot simple_silent "foo" [42%Z] simple_bus_with_two.
Proof.
  cbv zeta.
  assert (preserves (fun b => global_of b 0)
            (fun cb => clears_backlog cb (msg 0 7 100))) as Hg.
  { intros cb b. unfold clears_backlog. destruct (cb =? 1); reflexivity. }
  assert (preserves (fun b => local_of b (0, 7))
            (fun cb => clears_backlog cb (msg 0 7 100))) as Hl.
  { intros cb b. unfold clears_backlog. destruct (cb =? 1); reflexivity. }
  assert (preserves (fun b => callbacks_of b "foo")
            (fun cb => simple_silent cb [42%Z])) as Hs.
  { intros cb b. reflexivity. }
  assert (length (global_of bus_both_ways 0) < 5) as Hfg by (vm_compute; lia).
  assert (length (local_of bus_both_ways (0, 7)) < 5) as Hfl
    by (vm_compute; lia).
  assert (length (callbacks_of simple_bus_with_two "foo") < 5) as Hfs
    by (vm_compute; lia).
  split; [by split_and!|].
  exact (dispatch_over_live_list clears_backlog simple_silent 5 (msg 0 7 100)
           bus_both_ways "foo" [42%Z] simple_bus_with_two
           Hg Hl Hs Hfg Hfl Hfs).
Defined.

(** Scenario B: a bus for ["foo"] and ["bar"], callback 1 subscribed to
    ["foo"]; ["foo"] is broadcast with 42, then ["baz"] with 1. *)
Lemma simple_broadcast_dispatch_witness :
  ("foo" ∈ _message_types simple_bus_foo /\ quiet simple_silent /\
   length (callbacks_of simple_bus_foo "foo") < 5 /\
   "baz" ∉ _message_types simple_bus_foo) /\
  calls (SimpleMessageBus.broadcast simple_silent 5 "foo" [42%Z] simple_bus_foo)
    = [(1, [42%Z])] /\
  SimpleMessageBus.broadcast simple_silent 5 "baz" [1%Z] simple_bus_foo
    = Outcome (Ok tt) simple_bus_foo [].
Proof.
  assert ("foo" ∈ _message_types simple_bus_foo) as Hfoo
    by (vm_compute; apply list_elem_of_here).
  assert ("baz" ∉ _message_types simple_bus_foo) as Hbaz.
  { apply (bool_decide_unpack _). vm_compute. exact I. }
  assert (length (callbacks_of simple_bus_foo "foo") < 5) as Hfuel
    by (vm_compute; lia).
  destruct (simple_broadcast_dispatch simple_silent 5 "foo" [42%Z]
              simple_bus_foo) as [_ Hknown].
  destruct (Hknown Hfoo simple_silent_quiet Hfuel) as (_ & Hcalls & _).
  destruct (simple_broadcast_dispatch simple_silent 5 "baz" [1%Z]
              simple_bus_foo) as [Hunknown _].
  split_and!.
  - exact Hfoo.
  - exact simple_silent_quiet.
  - exact Hfuel.
  - exact Hbaz.
  - exact Hcalls.
  - exact (Hunknown Hbaz).
Defined.

(** A callback subscribed twice on an empty bus and unsubscribed once. *)
Lemma duplicate_subscription_survives_witness :
  let m := msg 0 7 100 in
  let b2 :=
    state (MessageBus.subscribe_globally 0 1
             (state (MessageBus.subscribe_globally 0 1 MessageBus.init))) in
  let ou := MessageBus.unsubscribe_globally 0 1 b2 in
  (quiet silent /\ msg_class m = 0 /\
   S (length (global_of MessageBus.init 0)) < 5 /\
   length (local_of MessageBus.init (0, sender m)) < 5 /\
   (1 ∉ global_of MessageBus.init 0) /\
   (1 ∉ local_of MessageBus.init (0, sender m))) /\
  global_of (state ou) 0 = [1] /\
  occurrences (1, m) (calls (MessageBus.broadcast silent 5 m (state ou))) = 1.
Proof.
  cbv zeta.
  assert (S (length (global_of MessageBus.init 0)) < 5) as Hfg
    by (vm_compute; lia).
  assert (length (local_of MessageBus.init (0, sender (msg 0 7 100))) < 5)
    as Hfl by (vm_compute; lia).
  assert (1 ∉ global_of MessageBus.init 0) as Hg
    by (vm_compute; apply not_elem_of_nil).
  assert (1 ∉ local_of MessageBus.init (0, sender (msg 0 7 100))) as Hl
    by (vm_compute; apply not_elem_of_nil).
  destruct (duplicate_subscription_survives silent 5 0 1 (msg 0 7 100)
              MessageBus.init) as [Hkept Hcalled].
  destruct Hkept as (_ & _ & _ & Hlist & _).
  destruct (Hcalled silent_quiet eq_refl Hfg Hfl) as (_ & _ & Honce).
  split_and!.
  - exact silent_quiet.
  - reflexivity.
  - exact Hfg.
  - exact Hfl.
  - exact Hg.
  - exact Hl.
  - exact Hlist.
  - exact (Honce Hg Hl).
Defined.

(** * The rest of the file *)

(** ** reset *)

Lemma report_leftovers_eq {K : Type} (entry : list nat -> K -> Diagnostic)
  (items : list (K * list nat)) b :
  MessageBus.report_leftovers entry items b =
  Outcome (Ok tt) b
    (map (fun item => entry item.2 item.1)
       (filter (fun item => item.2 <> []) items)).
Proof.
  induction items as [|[key cb_list] items IH]; [done|].
  rewrite filter_cons. cbn [MessageBus.report_leftovers].
  destruct cb_list as [|cb cbs].
  - rewrite bind_ret_l, IH. by rewrite decide_False by (intros H; by apply H).
  - rewrite decide_True by done.
    unfold bind at 1, tell. cbn [result state calls]. by rewrite IH.
Qed.

Lemma reset_eq destroy b :
  MessageBus.reset destroy b =
  Outcome (result (destroy b)) (state (destroy b))
    ((map (fun item => LeftoverGlobal item.2 item.1)
        (filter (fun item => item.2 <> []) (map_to_list (global_receivers b))) ++
      map (fun item => LeftoverLocal item.2 item.1)
        (filter (fun item => item.2 <> []) (map_to_list (local_receivers b)))) ++
     calls (destroy b)).
Proof.
  unfold MessageBus.reset. rewrite bind_gets.
  erewrite bind_ok; [|apply report_leftovers_eq]. rewrite bind_gets.
  erewrite bind_ok; [|apply report_leftovers_eq].
  cbn [result state calls]. by rewrite app_assoc.
Qed.

Lemma leftover_in_registry {K : Type} `{Countable K} (d : gmap K (list nat))
  (key : K) (cbs : list nat) :
  (key, cbs) ∈ filter (fun item => item.2 <> []) (map_to_list d) <->
  dd_peek key d = cbs /\ cbs <> [].
Proof.
  rewrite list_elem_of_filter, elem_of_map_to_list. simpl. unfold dd_peek.
  split.
  - intros [Hne Hd]. by rewrite Hd.
  - intros [Hd Hne]. split; [done|].
    destruct (d !! key) as [l|]; simpl in Hd; by subst.
Qed.

(** [reset] never raises on its own account and never changes the bus
    before it hands over to [destroy_instance].  What it logs first is one
    diagnostic for every key of the global registry and every key of the
    local registry that still holds callbacks, with the callbacks it
    holds: nothing for a key bound to an empty list, nothing about
    messages still waiting in a backlog, and nothing at all once every
    callback was unsubscribed. *)
Theorem reset_reports_leftovers (destroy : M Diagnostic Bus unit) (b : Bus) :
  let logged := calls (MessageBus.reset (ret tt) b) in
  MessageBus.reset destroy b =
    Outcome (result (destroy b)) (state (destroy b))
      (logged ++ calls (destroy b)) /\
  (forall cbs t, LeftoverGlobal cbs t ∈ logged <->
                 global_of b t = cbs /\ cbs <> []) /\
  (forall cbs p, LeftoverLocal cbs p ∈ logged <->
                 local_of b p = cbs /\ cbs <> []) /\
  NoDup logged /\
  (logged = [] <->
   (forall t, global_of b t = []) /\ (forall p, local_of b p = [])) /\
  (forall f, calls (MessageBus.reset (ret tt) (with_queue f b)) = logged).
Proof.
  cbv zeta. rewrite !reset_eq. cbn [result state calls ret].
  rewrite !app_nil_r.
  set (G := filter _ (map_to_list (global_receivers b))).
  set (L := filter _ (map_to_list (local_receivers b))).
  assert (forall cbs t,
            LeftoverGlobal cbs t ∈
              map (fun item => LeftoverGlobal item.2 item.1) G ++
              map (fun item => LeftoverLocal item.2 item.1) L <->
            global_of b t = cbs /\ cbs <> []) as Hglobal.
  { intros cbs t. rewrite elem_of_app, !list_elem_of_fmap.
    rewrite <- (leftover_in_registry (global_receivers b) t cbs). fold G.
    split.
    - intros [([k l] & [= -> ->] & Hin)|([k l] & [=] & _)]. done.
    - intros Hin. left. by exists (t, cbs). }
  assert (forall cbs p,
            LeftoverLocal cbs p ∈
              map (fun item => LeftoverGlobal item.2 item.1) G ++
              map (fun item => LeftoverLocal item.2 item.1) L <->
            local_of b p = cbs /\ cbs <> []) as Hlocal.
  { intros cbs p. rewrite elem_of_app, !list_elem_of_fmap.
    rewrite <- (leftover_in_registry (local_receivers b) p cbs). fold L.
    split.
    - intros [([k l] & [=] & _)|([k l] & [= -> ->] & Hin)]. done.
    - intros Hin. right. by exists (p, cbs). }
  split_and!; [reflexivity|exact Hglobal|exact Hlocal| | |].
  3:{ intros f. rewrite reset_eq. cbn [result state calls ret].
      by rewrite app_nil_r. }
  - apply NoDup_app. split_and!.
    + apply NoDup_fmap_2; [by intros [k l] [k' l'] [= -> ->]|].
      apply NoDup_filter, NoDup_map_to_list.
    + intros d Hg Hl. apply list_elem_of_fmap in Hg as (? & -> & _).
      by apply list_elem_of_fmap in Hl as (? & [=] & _).
    + apply NoDup_fmap_2; [by intros [k l] [k' l'] [= -> ->]|].
      apply NoDup_filter, NoDup_map_to_list.
  - split.
    + intros Hnil. split.
      * intros t. destruct (global_of b t) as [|cb l] eqn:Ht; [done|].
        exfalso. assert (LeftoverGlobal (cb :: l) t ∈ @nil Diagnostic) as Hin.
        { rewrite <- Hnil. apply Hglobal. by rewrite Ht. }
        by apply elem_of_nil in Hin.
      * intros p. destruct (local_of b p) as [|cb l] eqn:Hp; [done|].
        exfalso. assert (LeftoverLocal (cb :: l) p ∈ @nil Diagnostic) as Hin.
        { rewrite <- Hnil. apply Hlocal. by rewrite Hp. }
        by apply elem_of_nil in Hin.
    + intros [Hg Hl].
      destruct (map _ G ++ map _ L) as [|d rest] eqn:Hlog; [done|].
      exfalso. assert (d ∈ d :: rest) as Hin by apply list_elem_of_here.
      rewrite <- Hlog in Hglobal, Hlocal.
      destruct d as [cbs t|cbs p].
      * rewrite <- Hlog in Hin. apply Hglobal in Hin as [Ht Hne].
        by rewrite Hg in Ht.
      * rewrite <- Hlog in Hin. apply Hlocal in Hin as [Hp Hne].
        by rewrite Hl in Hp.
Qed.

(** ** Properties kept by computations *)

Section Keeps.
Context {E B : Type} (P : B -> Prop).

Lemma keeps_ret {A} (a : A) : keeps P (ret (E := E) a).
Proof. by intros b Hb. Qed.

Lemma keeps_raise {A} (e : exn) : keeps P (raise (E := E) (A := A) e).
Proof. by intros b Hb. Qed.

Lemma keeps_out_of_fuel {A} : keeps P (out_of_fuel (E := E) (A := A)).
Proof. by intros b Hb. Qed.

Lemma keeps_tell (e : E) : keeps P (tell e).
Proof. by intros b Hb. Qed.

Lemma keeps_gets {A} (f : B -> A) : keeps P (gets (E := E) f).
Proof. by intros b Hb. Qed.

Lemma keeps_modify (f : B -> B) :
  (forall b, P b -> P (f b)) -> keeps P (modify (E := E) f).
Proof. intros Hf b Hb. by apply Hf. Qed.

Lemma keeps_bind {A A'} (m : M E B A) (f : A -> M E B A') :
  keeps P m -> (forall a, keeps P (f a)) -> keeps P (bind m f).
Proof.
  intros Hm Hf b Hb. specialize (Hm b Hb). unfold bind.
  destruct (result (m b)) as [a| |]; [|done..]. by apply Hf.
Qed.

Lemma keeps_for_in (current : B -> list nat) (body : nat -> M E B unit)
  fuel i :
  (forall cb, keeps P (body cb)) -> keeps P (for_in current body fuel i).
Proof.
  intros Hbody. revert i. induction fuel as [|fuel IH]; intros i b Hb; [done|].
  simpl. destruct (current b !! i) as [cb|]; [|done].
  by apply keeps_bind.
Qed.

Lemma keeps_each {A} (body : A -> M E B unit) l :
  (forall x, keeps P (body x)) -> keeps P (each body l).
Proof.
  intros Hbody. induction l as [|x l IH]; [apply keeps_ret|].
  by apply keeps_bind.
Qed.
End Keeps.

(** Whatever the fuel, a loop whose bodies leave an aspect of the object
    alone leaves it alone. *)
Lemma for_in_preserves {E B X : Type} (view : B -> X)
  (current : B -> list nat) (body : nat -> M E B unit) fuel i :
  preserves view body -> preserves view (fun _ : unit => for_in current body fuel i).
Proof.
  intros Hbody []. revert i. induction fuel as [|fuel IH]; intros i b; [done|].
  simpl. destruct (current b !! i) as [cb|]; [|done].
  unfold bind. specialize (Hbody cb b).
  destruct (body cb b) as [[[]| |] b1 c1]; simpl in *; [|done..].
  by rewrite IH.
Qed.

(** ** The backlog *)

Lemma broadcast_keeps_queue call fuel m b :
  preserves message_queue (fun cb => call cb m) ->
  message_queue (state (MessageBus.broadcast call fuel m b)) = message_queue b.
Proof.
  intros Hcall.
  assert (preserves message_queue (MessageBus.invoke call m)) as Hinv
    by by apply invoke_preserves.
  unfold MessageBus.broadcast.
  rewrite (bind_ok_silent _ _ _ _ _ (global_getitem_eq _ b)).
  set (b1 := with_global _ b).
  pose proof (for_in_preserves message_queue
                (fun self => global_of self (msg_class m))
                (MessageBus.invoke call m) fuel 0 Hinv tt b1) as H1.
  unfold bind at 1. cbv beta in H1.
  destruct (for_in (fun self => global_of self (msg_class m))
              (MessageBus.invoke call m) fuel 0 b1) as [[[]| |] b2 c2];
    cbn [result state calls] in *; [|exact H1..].
  rewrite (bind_ok_silent _ _ _ _ _ (local_getitem_eq _ b2)).
  set (b3 := with_local _ b2).
  pose proof (for_in_preserves message_queue
                (fun self => local_of self (msg_class m, sender m))
                (MessageBus.invoke call m) fuel 0 Hinv tt b3) as H3.
  rewrite H3. exact H1.
Qed.

(** A queuing broadcast of a message that has a receiver is the dispatch
    of the base class, for any callbacks and any fuel; the bus itself
    leaves every backlog alone then, so the backlogs are as the callbacks
    left them. *)
Theorem queuing_broadcast_with_receiver
  (call : Callbacks) (fuel : nat) (m : Message) (b : Bus) :
  global_of b (msg_class m) <> [] \/ local_of b (msg_class m, sender m) <> [] ->
  QueuingMessageBus.broadcast call fuel m b = MessageBus.broadcast call fuel m b /\
  (preserves message_queue (fun cb => call cb m) ->
   message_queue (state (QueuingMessageBus.broadcast call fuel m b))
   = message_queue b).
Proof.
  intros Hsome. rewrite queuing_broadcast_dispatches by done.
  split; [done|]. apply broadcast_keeps_queue.
Qed.

(** The sender of a message that has a receiver. *)
Lemma queuing_broadcast_with_receiver_witness :
  (global_of bus_both_ways 0 <> [] \/ local_of bus_both_ways (0, 8) <> []) /\
  QueuingMessageBus.broadcast clears_backlog 5 (msg 0 8 101) bus_both_ways =
  MessageBus.broadcast clears_backlog 5 (msg 0 8 101) bus_both_ways.
Proof.
  assert (global_of bus_both_ways 0 <> [] \/ local_of bus_both_ways (0, 8) <> [])
    as Hsome by (left; vm_compute; discriminate).
  split; [exact Hsome|].
  exact (proj1 (queuing_broadcast_with_receiver clears_backlog 5 (msg 0 8 101)
                  bus_both_ways Hsome)).
Defined.

Lemma queue_of_appended m b t :
  queue_of
    (with_queue (<[msg_class m := queue_of b (msg_class m) ++ [m]]>)
       (touched m b)) t =
  queue_of b t ++ (if decide (msg_class m = t) then [m] else []).
Proof.
  unfold queue_of at 1. cbn [with_queue message_queue touched with_local
    with_global]. rewrite dd_peek_insert.
  case_decide; [by subst|]. by rewrite app_nil_r.
Qed.

(** Messages broadcast while nobody is subscribed for any of them are
    kept, whatever the callbacks are: no callback runs, and the backlog of
    every class grows by the messages of that class, in the order of
    their broadcasts. *)
Theorem unheard_messages_are_kept_in_order
  (call : Callbacks) (fuel : nat) (ms : list Message) (b : Bus) :
  Forall (fun m => global_of b (msg_class m) = [] /\
                   local_of b (msg_class m, sender m) = []) ms ->
  let o := each (QueuingMessageBus.broadcast call fuel) ms b in
  result o = Ok tt /\ calls o = [] /\
  (forall t, queue_of (state o) t =
             queue_of b t ++ filter (fun m => msg_class m = t) ms) /\
  (forall t, global_of (state o) t = global_of b t) /\
  (forall p, local_of (state o) p = local_of b p).
Proof.
  cbv zeta. revert b. induction ms as [|m ms IH]; intros b Hall.
  - simpl. split_and!; try done. intros t. by rewrite app_nil_r.
  - apply Forall_cons in Hall as [[Hg Hl] Hall].
    cbn [each].
    rewrite (bind_ok_silent _ _ _ _ _ (queuing_broadcast_queues call fuel m b Hg Hl)).
    set (b1 := with_queue _ (touched m b)).
    assert (forall t, global_of b1 t = global_of b t) as Hg1.
    { intros t. unfold b1.
      change (global_of (with_queue _ ?x) t) with (global_of x t).
      apply global_of_touched. }
    assert (forall p, local_of b1 p = local_of b p) as Hl1.
    { intros p. unfold b1.
      change (local_of (with_queue _ ?x) p) with (local_of x p).
      apply local_of_touched. }
    destruct (IH b1) as (Hres & Hcalls & Hq & Hg' & Hl').
    { eapply Forall_impl; [done|]. intros m' [? ?]. by rewrite Hg1, Hl1. }
    split_and!; [done|done| | |].
    + intros t. rewrite Hq. unfold b1. rewrite queue_of_appended.
      rewrite filter_cons, <- app_assoc. by case_decide.
    + intros t. by rewrite Hg'.
    + intros p. by rewrite Hl'.
Qed.

(** Three messages on an empty queuing bus. *)
Lemma unheard_messages_are_kept_in_order_witness :
  let ms := [msg 0 7 100; msg 1 7 101; msg 0 8 102] in
  Forall (fun m => global_of QueuingMessageBus.init (msg_class m) = [] /\
                   local_of QueuingMessageBus.init (msg_class m, sender m) = [])
    ms /\
  queue_of (state (each (QueuingMessageBus.broadcast clears_backlog 3) ms
                     QueuingMessageBus.init)) 0
  = [msg 0 7 100; msg 0 8 102].
Proof.
  cbv zeta.
  assert (Forall
            (fun m => global_of QueuingMessageBus.init (msg_class m) = [] /\
                      local_of QueuingMessageBus.init (msg_class m, sender m) = [])
            [msg 0 7 100; msg 1 7 101; msg 0 8 102]) as Hall.
  { repeat constructor. }
  split; [exact Hall|].
  destruct (unheard_messages_are_kept_in_order clears_backlog 3 _ _ Hall)
    as (_ & _ & Hq & _).
  exact (Hq 0).
Defined.

(** ** The backlog is sorted by class *)

Lemma queued_by_class_init : queued_by_class QueuingMessageBus.init.
Proof. intros t m Hin. by apply elem_of_nil in Hin. Qed.

Lemma queued_by_class_same_queue b b' :
  (forall t, queue_of b' t = queue_of b t) ->
  queued_by_class b -> queued_by_class b'.
Proof. intros Hq Hb t m. rewrite Hq. apply Hb. Qed.

Lemma queued_by_class_touch t b :
  queued_by_class b -> queued_by_class (with_queue (dd_touch t) b).
Proof.
  apply queued_by_class_same_queue. intros t'. apply queue_of_touch.
Qed.

Lemma keeps_sorted_global_getitem t :
  keeps queued_by_class (MessageBus.global_getitem t).
Proof.
  intros b Hb. rewrite global_getitem_eq. by apply (queued_by_class_same_queue b).
Qed.

Lemma keeps_sorted_local_getitem p :
  keeps queued_by_class (MessageBus.local_getitem p).
Proof.
  intros b Hb. rewrite local_getitem_eq. by apply (queued_by_class_same_queue b).
Qed.

Lemma keeps_sorted_registry (m : M (nat * Message) Bus unit) :
  (forall b t, queue_of (state (m b)) t = queue_of b t) ->
  keeps queued_by_class m.
Proof. intros Hm b Hb. by apply (queued_by_class_same_queue b). Qed.

Lemma queued_by_class_set b t q :
  queued_by_class b ->
  (forall m, m ∈ q -> msg_class m = t) ->
  queued_by_class (with_queue (<[t := q]>) b).
Proof.
  intros Hb Hq t' m. unfold queue_of. cbn [with_queue message_queue].
  rewrite dd_peek_insert. case_decide; [subst; apply Hq|apply Hb].
Qed.

Section Sorted.
Variable call : Callbacks.
Hypothesis call_keeps : forall cb m, keeps queued_by_class (call cb m).

Lemma keeps_sorted_broadcast fuel m :
  keeps queued_by_class (MessageBus.broadcast call fuel m).
Proof.
  assert (forall cb, keeps queued_by_class (MessageBus.invoke call m cb)) as Hinv.
  { intros cb. apply keeps_bind; [apply keeps_tell|]. intros _. apply call_keeps. }
  apply keeps_bind; [apply keeps_sorted_global_getitem|]. intros _.
  apply keeps_bind; [by apply keeps_for_in|]. intros _.
  apply keeps_bind; [apply keeps_sorted_local_getitem|]. intros _.
  by apply keeps_for_in.
Qed.

Lemma keeps_sorted_queuing_broadcast fuel m :
  keeps queued_by_class (QueuingMessageBus.broadcast call fuel m).
Proof.
  apply keeps_bind; [apply keeps_sorted_global_getitem|]. intros g.
  destruct (negb (length g =? 0)); [apply keeps_sorted_broadcast|].
  apply keeps_bind; [apply keeps_sorted_local_getitem|]. intros l.
  destruct (negb (length l =? 0)); [apply keeps_sorted_broadcast|].
  intros b Hb. rewrite (bind_ok_silent _ _ _ _ _ (queue_getitem_eq _ _)).
  cbn [modify state]. apply queued_by_class_set.
  - by apply queued_by_class_touch.
  - intros m' Hin. apply elem_of_app in Hin as [Hin|Hin].
    + by apply Hb.
    + apply list_elem_of_singleton in Hin. by subst.
Qed.

Lemma keeps_sorted_drain fuel t :
  keeps queued_by_class (QueuingMessageBus.drain call fuel t).
Proof.
  induction fuel as [|fuel IH]; intros b Hb; [done|].
  rewrite drain_step.
  rewrite (bind_ok_silent _ _ _ _ _ (queue_getitem_eq _ _)).
  assert (queued_by_class (with_queue (dd_touch t) b)) as Hb1
    by by apply queued_by_class_touch.
  destruct (queue_of b t) as [|m q] eqn:Hq; [done|]. cbn [length Nat.eqb].
  rewrite (bind_ok_silent _ _ _ _ _ (queue_getitem_eq _ _)).
  rewrite queue_of_touch, Hq, bind_modify.
  apply keeps_bind; [apply keeps_sorted_queuing_broadcast|by intros _|].
  apply queued_by_class_set.
  - by apply queued_by_class_touch.
  - intros m' Hin. apply Hb. rewrite Hq. by apply list_elem_of_further.
Qed.
End Sorted.

Lemma unsubscribe_checks_registration_aux b t cb :
  MessageBus.unsubscribe_globally t cb b =
    Outcome (Ok tt)
      (with_global (<[t := remove_first cb (global_of b t)]>) b) [] \/
  MessageBus.unsubscribe_globally t cb b =
    Outcome (Raise AssertionError) (with_global (dd_touch t) b) [].
Proof.
  destruct (decide (cb ∈ global_of b t)) as [Hin|Hno].
  - left. by apply unsubscribe_globally_registered, py_remove_present.
  - right. by apply unsubscribe_globally_unregistered.
Qed.

Lemma unsubscribe_locally_aux b t i cb :
  MessageBus.unsubscribe_locally t i cb b =
    Outcome (Ok tt)
      (with_local (<[(t, i) := remove_first cb (local_of b (t, i))]>) b) [] \/
  MessageBus.unsubscribe_locally t i cb b =
    Outcome (Raise AssertionError) (with_local (dd_touch (t, i)) b) [].
Proof.
  destruct (decide (cb ∈ local_of b (t, i))) as [Hin|Hno].
  - left. by apply unsubscribe_locally_registered, py_remove_present.
  - right. by apply unsubscribe_locally_unregistered.
Qed.

(** Built empty and changed through its methods, a queuing bus keeps every
    waiting message under the key of its own class, as long as the
    callbacks do. *)
Theorem backlog_sorted_by_class (call : Callbacks) (fuel : nat) :
  (forall cb m, keeps queued_by_class (call cb m)) ->
  queued_by_class QueuingMessageBus.init /\
  (forall m, keeps queued_by_class (QueuingMessageBus.broadcast call fuel m)) /\
  (forall t cb,
     keeps queued_by_class (QueuingMessageBus.subscribe_globally call fuel t cb)) /\
  (forall t i cb,
     keeps queued_by_class (QueuingMessageBus.subscribe_locally call fuel t i cb)) /\
  (forall t, keeps queued_by_class (QueuingMessageBus.clear t)) /\
  (forall t cb, keeps queued_by_class (MessageBus.unsubscribe_globally t cb)) /\
  (forall t i cb, keeps queued_by_class (MessageBus.unsubscribe_locally t i cb)) /\
  (forall t cb, keeps queued_by_class (MessageBus.discard_globally t cb)) /\
  (forall t i cb, keeps queued_by_class (MessageBus.discard_locally t i cb)).
Proof.
  intros Hcall. split_and!.
  - apply queued_by_class_init.
  - intros m. by apply keeps_sorted_queuing_broadcast.
  - intros t cb. apply keeps_bind; [|intros _; by apply keeps_sorted_drain].
    apply keeps_sorted_registry. intros b t'. by rewrite subscribe_globally_eq.
  - intros t i cb. apply keeps_sorted_registry. intros b t'.
    rewrite queuing_subscribe_locally_eq. cbn [state].
    by rewrite queue_of_touch.
  - intros t b Hb. unfold QueuingMessageBus.clear.
    rewrite (bind_ok_silent _ _ _ _ _ (queue_getitem_eq _ _)).
    cbn [modify state]. apply queued_by_class_set.
    + by apply queued_by_class_touch.
    + intros m Hin. by apply elem_of_nil in Hin.
  - intros t cb. apply keeps_sorted_registry. intros b t'.
    destruct (unsubscribe_checks_registration_aux b t cb) as [-> | ->]; done.
  - intros t i cb. apply keeps_sorted_registry. intros b t'.
    destruct (unsubscribe_locally_aux b t i cb) as [-> | ->]; done.
  - intros t cb. apply keeps_sorted_registry. intros b t'.
    rewrite discard_globally_eq. by destruct (py_remove _ _).
  - intros t i cb. apply keeps_sorted_registry. intros b t'.
    rewrite discard_locally_eq. by destruct (py_remove _ _).
Qed.

Lemma keeps_sorted_clear t : keeps queued_by_class (QueuingMessageBus.clear t).
Proof.
  intros b Hb. unfold QueuingMessageBus.clear.
  rewrite (bind_ok_silent _ _ _ _ _ (queue_getitem_eq _ _)).
  cbn [modify state]. apply queued_by_class_set.
  - by apply queued_by_class_touch.
  - intros m Hin. by apply elem_of_nil in Hin.
Qed.

(** A callback that throws a backlog away keeps the others sorted. *)
Lemma backlog_sorted_by_class_witness :
  (forall cb m, keeps queued_by_class (clears_backlog cb m)) /\
  keeps queued_by_class
    (QueuingMessageBus.subscribe_globally clears_backlog 10 0 1).
Proof.
  assert (forall cb m, keeps queued_by_class (clears_backlog cb m)) as Hcall.
  { intros cb m. unfold clears_backlog.
    destruct (cb =? 1); [apply keeps_sorted_clear|apply keeps_ret]. }
  split; [exact Hcall|].
  destruct (backlog_sorted_by_class clears_backlog 10 Hcall)
    as (_ & _ & Hsub & _).
  exact (Hsub 0 1).
Defined.

(** On a bus whose backlog is sorted by class, what [subscribe_globally]
    replays to quiet callbacks are messages of the subscribed class that
    were waiting for it, and nothing else. *)
Theorem replay_delivers_own_class_only
  (call : Callbacks) (fuel : nat) (t cb : nat) (b : Bus) :
  quiet call ->
  queued_by_class b ->
  replay_fuel b t <= fuel ->
  let o := QueuingMessageBus.subscribe_globally call fuel t cb b in
  result o = Ok tt /\
  (forall c m, (c, m) ∈ calls o -> msg_class m = t /\ m ∈ queue_of b t) /\
  (forall m, m ∈ queue_of b t -> (cb, m) ∈ calls o).
Proof.
  intros Hq Hsorted Hfuel. cbv zeta.
  rewrite queuing_subscribe_globally_quiet by done. cbn [result calls].
  split_and!; [done| |].
  - intros c m Hin. apply list_elem_of_In, in_flat_map in Hin as (m' & Hm' & Hin).
    apply list_elem_of_In in Hm', Hin.
    assert (m = m') as <-.
    { unfold deliveries in Hin. apply elem_of_app in Hin as [Hin|Hin];
        by apply list_elem_of_fmap in Hin as (? & [= _ ->] & _). }
    split; [by apply Hsorted|done].
  - intros m Hin. apply list_elem_of_In, in_flat_map. exists m.
    split; [by apply list_elem_of_In|]. apply list_elem_of_In.
    rewrite deliveries_subscribed, decide_True by (symmetry; by apply Hsorted).
    apply elem_of_app. left. apply list_elem_of_fmap. exists cb.
    split; [done|]. apply elem_of_app. right. apply list_elem_of_here.
Qed.

Lemma backlog_sorted_by_class_aux (call : Callbacks) fuel :
  quiet call ->
  queued_by_class QueuingMessageBus.init /\
  (forall m b, queued_by_class b ->
     queued_by_class (state (QueuingMessageBus.broadcast call fuel m b))).
Proof.
  intros Hq. split; [apply queued_by_class_init|].
  intros m b Hb. apply keeps_sorted_queuing_broadcast; [|done].
  intros cb m' b' Hb'. by rewrite Hq.
Qed.

(** The backlog of two. *)
Lemma replay_delivers_own_class_only_witness :
  (quiet silent /\ queued_by_class backlog_of_two /\
   replay_fuel backlog_of_two 0 <= 10) /\
  (1, msg 0 8 101) ∈
    calls (QueuingMessageBus.subscribe_globally silent 10 0 1 backlog_of_two).
Proof.
  assert (queued_by_class backlog_of_two) as Hsorted.
  { destruct (backlog_sorted_by_class_aux silent 1 silent_quiet) as [Hinit Hb].
    apply Hb, Hb, Hinit. }
  assert (replay_fuel backlog_of_two 0 <= 10) as Hfuel by (vm_compute; lia).
  split; [split_and!; [exact silent_quiet|exact Hsorted|exact Hfuel]|].
  destruct (replay_delivers_own_class_only silent 10 0 1 backlog_of_two
              silent_quiet Hsorted Hfuel) as (_ & _ & Hall).
  apply Hall. vm_compute. apply list_elem_of_further, list_elem_of_here.
Defined.

(** ** Callbacks that raise *)

(** A stretch of the list whose callbacks return normally and leave the
    object alone is walked through one position at a time. *)
Lemma for_in_run {E B : Type} (ev : nat -> E) (current : B -> list nat)
  (body : nat -> M E B unit) (l : list nat) fuel i b pre post :
  current b = pre ++ l ++ post ->
  length pre = i ->
  (forall c b0, c ∈ l -> body c b0 = Outcome (Ok tt) b0 [ev c]) ->
  for_in current body (length l + fuel) i b =
  Outcome (result (for_in current body fuel (i + length l) b))
    (state (for_in current body fuel (i + length l) b))
    (map ev l ++ calls (for_in current body fuel (i + length l) b)).
Proof.
  revert i pre. induction l as [|c l IH]; intros i pre Hcur Hlen Hbody.
  - simpl. rewrite Nat.add_0_r. symmetry. apply outcome_eta.
  - cbn [length Nat.add for_in].
    assert (current b !! i = Some c) as ->.
    { rewrite Hcur, <- Hlen. by rewrite lookup_app_r, Nat.sub_diag by lia. }
    unfold bind. rewrite Hbody by apply list_elem_of_here.
    cbn [result state calls].
    rewrite (IH (S i) (pre ++ [c])).
    + cbn [result state calls]. by replace (S i + length l) with (i + S (length l)) by lia.
    + by rewrite <- app_assoc.
    + rewrite length_app. simpl. lia.
    + intros c' b0 Hin. apply Hbody. by apply list_elem_of_further.
Qed.

Lemma broadcast_raises call fuel m b l1 cb l2 e :
  global_of b (msg_class m) = l1 ++ cb :: l2 ->
  (forall c b0, c ∈ l1 -> call c m b0 = ret tt b0) ->
  (forall b0, call cb m b0 = Outcome (Raise e) b0 []) ->
  length l1 < fuel ->
  MessageBus.broadcast call fuel m b =
  Outcome (Raise e) (with_global (dd_touch (msg_class m)) b)
    (map (fun c => (c, m)) l1 ++ [(cb, m)]).
Proof.
  intros Hg Hquiet Hraise Hfuel. unfold MessageBus.broadcast.
  rewrite (bind_ok_silent _ _ _ _ _ (global_getitem_eq _ b)).
  set (b1 := with_global _ b).
  assert (global_of b1 (msg_class m) = [] ++ l1 ++ cb :: l2) as Hcur.
  { unfold b1. by rewrite global_of_touch. }
  destruct fuel as [|fuel]; [lia|].
  replace (S fuel) with (length l1 + S (fuel - length l1)) by lia.
  unfold bind at 1.
  rewrite (for_in_run (fun c => (c, m))
             (fun self => global_of self (msg_class m))
             (MessageBus.invoke call m) l1 _ 0 b1 [] (cb :: l2) Hcur eq_refl).
  2:{ intros c b0 Hin. unfold MessageBus.invoke, bind, tell.
      cbn [result state calls]. by rewrite Hquiet. }
  cbn [for_in Nat.add]. rewrite Hcur. cbn [app].
  rewrite lookup_app_r, Nat.sub_diag by lia. cbn [lookup list_lookup].
  assert (MessageBus.invoke call m cb b1 = Outcome (Raise e) b1 [(cb, m)])
    as Hinv.
  { unfold MessageBus.invoke, bind, tell. cbn [result state calls].
    by rewrite Hraise. }
  unfold bind. rewrite Hinv. reflexivity.
Qed.



(** A message whose replay raises is lost to the backlog all the same:
    [subscribe_globally] pops it before it dispatches it.  The exception
    ends the replay, the callback stays subscribed and the messages
    behind stay in the backlog. *)
Theorem failed_replay_drops_message
  (call : Callbacks) (fuel : nat) (t cb : nat) (m : Message)
  (rest : list Message) (e : exn) (b : Bus) :
  queue_of b t = m :: rest ->
  msg_class m = t ->
  global_of b t = [] ->
  (forall b0, call cb m b0 = Outcome (Raise e) b0 []) ->
  1 < fuel ->
  let o := QueuingMessageBus.subscribe_globally call fuel t cb b in
  result o = Raise e /\
  calls o = [(cb, m)] /\
  queue_of (state o) t = rest /\
  global_of (state o) t = [cb].
Proof.
  intros Hq Hm Hg Hraise Hfuel. cbv zeta.
  unfold QueuingMessageBus.subscribe_globally.
  rewrite (bind_ok_silent _ _ _ _ _ (subscribe_globally_eq _ _ _)).
  rewrite Hg. cbn [app].
  set (b1 := with_global _ b).
  destruct fuel as [|[|fuel]]; [lia..|].
  rewrite drain_step.
  rewrite (bind_ok_silent _ _ _ _ _ (queue_getitem_eq _ _)).
  change (queue_of b1 t) with (queue_of b t). rewrite Hq. cbn [length Nat.eqb].
  rewrite (bind_ok_silent _ _ _ _ _ (queue_getitem_eq _ _)).
  rewrite queue_of_touch.
  change (queue_of b1 t) with (queue_of b t). rewrite Hq, bind_modify.
  set (b2 := with_queue (<[t := rest]>) _).
  assert (global_of b2 (msg_class m) = [] ++ cb :: []) as Hg2.
  { rewrite Hm. unfold b2, b1, global_of.
    cbn [with_queue with_global global_receivers]. apply dd_peek_insert_eq. }
  assert (QueuingMessageBus.broadcast call (S fuel) m b2 =
          Outcome (Raise e) (with_global (dd_touch (msg_class m)) b2)
            [(cb, m)]) as Hbc.
  { rewrite queuing_broadcast_dispatches by (left; by rewrite Hg2).
    rewrite (broadcast_raises call (S fuel) m b2 [] cb [] e Hg2);
      [done| |done|simpl; lia].
    intros c b0 Hin. by apply elem_of_nil in Hin. }
  unfold bind. rewrite Hbc. cbn [result state calls].
  split_and!; [done|done| |].
  - unfold queue_of, b2.
    cbn [with_queue with_global message_queue]. apply dd_peek_insert_eq.
  - rewrite Hm, global_of_touch. rewrite <- Hm at 1. by rewrite Hg2.
Qed.

(** The backlog of two and a callback that raises. *)
Lemma failed_replay_drops_message_witness :
  (queue_of backlog_of_two 0 = msg 0 7 100 :: [msg 0 8 101] /\
   msg_class (msg 0 7 100) = 0 /\
   global_of backlog_of_two 0 = [] /\
   (forall b0, fails 1 (msg 0 7 100) b0
               = Outcome (Raise (CallbackError 0)) b0 []) /\
   1 < 5) /\
  queue_of (state (QueuingMessageBus.subscribe_globally fails 5 0 1
                     backlog_of_two)) 0 = [msg 0 8 101].
Proof.
  assert (queue_of backlog_of_two 0 = msg 0 7 100 :: [msg 0 8 101]) as Hq
    by (vm_compute; reflexivity).
  assert (global_of backlog_of_two 0 = []) as Hg by (vm_compute; reflexivity).
  assert (forall b0, fails 1 (msg 0 7 100) b0
                     = Outcome (Raise (CallbackError 0)) b0 []) as Hraise.
  { intros b0. reflexivity. }
  assert (1 < 5) as Hfuel by lia.
  split; [by split_and!|].
  destruct (failed_replay_drops_message fails 5 0 1 (msg 0 7 100)
              [msg 0 8 101] (CallbackError 0) backlog_of_two
              Hq eq_refl Hg Hraise Hfuel) as (_ & _ & Hrest & _).
  exact Hrest.
Defined.

(** ** Subscribing and unsubscribing in turn *)

Section RemoveFirstFacts.
Context {A : Type} `{EqDecision A}.
Implicit Types (x y : A) (l : list A).

Lemma remove_first_app_new x l :
  remove_first x (l ++ [x]) =
  if decide (x ∈ l) then remove_first x l ++ [x] else l.
Proof.
  induction l as [|y l IH].
  - cbn [app remove_first]. rewrite decide_True by done.
    destruct (decide (x ∈ [])) as [Hin|]; [|done]. by apply elem_of_nil in Hin.
  - cbn [app remove_first]. destruct (decide (x = y)) as [->|Hne].
    + destruct (decide (y ∈ y :: l)) as [|Hno]; [done|].
      exfalso. apply Hno, list_elem_of_here.
    + rewrite IH. destruct (decide (x ∈ l)) as [Hin|Hno].
      * destruct (decide (x ∈ y :: l)) as [|Hno']; [done|].
        exfalso. by apply Hno', list_elem_of_further.
      * destruct (decide (x ∈ y :: l)) as [Hin|]; [|done].
        apply elem_of_cons in Hin as [?|?]; done.
Qed.

Lemma remove_first_subset x y l : y ∈ remove_first x l -> y ∈ l.
Proof.
  induction l as [|z l IH]; simpl; [done|].
  destruct (decide (x = z)); [by apply list_elem_of_further|].
  intros Hin. apply elem_of_cons in Hin as [->|Hin].
  - apply list_elem_of_here.
  - by apply list_elem_of_further, IH.
Qed.

Lemma NoDup_remove_first x l : NoDup l -> NoDup (remove_first x l).
Proof.
  induction 1 as [|z l Hz Hl IH]; simpl; [constructor|].
  destruct (decide (x = z)); [done|].
  constructor; [|done]. intros Hin. by apply Hz, (remove_first_subset x).
Qed.

Lemma remove_first_length x l : length (remove_first x l) <= length l.
Proof.
  induction l as [|z l IH]; simpl; [done|].
  destruct (decide (x = z)); simpl; lia.
Qed.

Lemma filter_others x l : x ∉ l -> filter (fun y => y <> x) l = l.
Proof.
  induction l as [|z l IH]; intros Hx; [done|].
  apply not_elem_of_cons in Hx as [Hne Hl].
  rewrite filter_cons_True by done. by rewrite IH.
Qed.

Lemma remove_first_filter x l :
  NoDup l -> remove_first x l = filter (fun y => y <> x) l.
Proof.
  induction 1 as [|z l Hz Hl IH]; [done|].
  cbn [remove_first]. destruct (decide (x = z)) as [->|Hne].
  - rewrite filter_cons_False by (intros Hne; by apply Hne).
    by rewrite filter_others.
  - rewrite filter_cons_True by done. by rewrite IH.
Qed.

Lemma remove_first_gone x l : NoDup l -> x ∉ remove_first x l.
Proof.
  induction 1 as [|z l Hz Hl IH]; simpl; [apply not_elem_of_nil|].
  destruct (decide (x = z)) as [->|Hne]; [done|].
  apply not_elem_of_cons. done.
Qed.
End RemoveFirstFacts.

Lemma dd_insert_peek {K : Type} `{Countable K} {V : Type} (k : K)
  (d : gmap K (list V)) :
  <[k := dd_peek k d]> d = dd_touch k d.
Proof.
  unfold dd_peek, dd_touch. destruct (d !! k) as [l|] eqn:Hk; [|done].
  by apply insert_id.
Qed.

(** [subscribe] followed by [unsubscribe] of the same callback under the
    same key always succeeds.  When the callback was not registered under
    the key before, the bus holds what it held (the key is bound now, if
    it was not); when it was, its earliest registration is the one that
    goes, so the callback has moved to the end of the dispatch order. *)
Theorem subscribe_then_unsubscribe (b : Bus) (t i cb : nat) :
  let og := MessageBus.unsubscribe_globally t cb
              (state (MessageBus.subscribe_globally t cb b)) in
  let ol := MessageBus.unsubscribe_locally t i cb
              (state (MessageBus.subscribe_locally t i cb b)) in
  (result og = Ok tt /\ result ol = Ok tt) /\
  (if py_in cb (global_of b t)
   then state og =
        with_global (<[t := remove_first cb (global_of b t) ++ [cb]]>) b
   else state og = with_global (dd_touch t) b /\ same_bus (state og) b) /\
  (if py_in cb (local_of b (t, i))
   then state ol =
        with_local (<[(t, i) := remove_first cb (local_of b (t, i)) ++ [cb]]>) b
   else state ol = with_local (dd_touch (t, i)) b /\ same_bus (state ol) b).
Proof.
  cbv zeta. rewrite subscribe_globally_eq, subscribe_locally_eq. cbn [state].
  set (bg := with_global _ b). set (bl := with_local _ b).
  assert (global_of bg t = global_of b t ++ [cb]) as Hbg.
  { unfold bg, global_of. cbn [with_global global_receivers].
    apply dd_peek_insert_eq. }
  assert (local_of bl (t, i) = local_of b (t, i) ++ [cb]) as Hbl.
  { unfold bl, local_of. cbn [with_local local_receivers].
    apply dd_peek_insert_eq. }
  rewrite (unsubscribe_globally_registered t cb bg
             (remove_first cb (global_of bg t))).
  2:{ apply py_remove_present. rewrite Hbg. apply elem_of_app. right.
      apply list_elem_of_here. }
  rewrite (unsubscribe_locally_registered t i cb bl
             (remove_first cb (local_of bl (t, i)))).
  2:{ apply py_remove_present. rewrite Hbl. apply elem_of_app. right.
      apply list_elem_of_here. }
  cbn [result state]. rewrite Hbg, Hbl, !remove_first_app_new.
  split_and!; [done|done| |].
  - unfold bg, with_global. cbn [global_receivers local_receivers message_queue].
    rewrite insert_insert_eq.
    destruct (py_in cb (global_of b t)) eqn:Hin.
    + apply py_in_true in Hin. by rewrite decide_True.
    + apply py_in_false in Hin. rewrite decide_False by done.
      unfold global_of. rewrite dd_insert_peek. split; [done|].
      apply (same_bus_touch_global t b).
  - unfold bl, with_local. cbn [global_receivers local_receivers message_queue].
    rewrite insert_insert_eq.
    destruct (py_in cb (local_of b (t, i))) eqn:Hin.
    + apply py_in_true in Hin. by rewrite decide_True.
    + apply py_in_false in Hin. rewrite decide_False by done.
      unfold local_of. rewrite dd_insert_peek. split; [done|].
      apply (same_bus_touch_local (t, i) b).
Qed.

(** ** The simple bus stays tidy *)

Lemma duplicate_free_init types : duplicate_free (SimpleMessageBus.init types).
Proof. intros t. constructor. Qed.

Lemma duplicate_free_set t l b :
  duplicate_free b -> NoDup l -> duplicate_free (with_callbacks (<[t := l]>) b).
Proof.
  intros Hb Hl t'. unfold callbacks_of. cbn [with_callbacks _callbacks].
  rewrite dd_peek_insert. case_decide; [done|apply Hb].
Qed.

Lemma duplicate_free_touch t b :
  duplicate_free b -> duplicate_free (with_callbacks (dd_touch t) b).
Proof. intros Hb t'. rewrite callbacks_of_touch. apply Hb. Qed.

Lemma duplicate_free_subscribe t cb b :
  duplicate_free b -> duplicate_free (state (SimpleMessageBus.subscribe t cb b)).
Proof.
  intros Hb. rewrite simple_subscribe_eq.
  destruct (negb _); [done|].
  destruct (py_in cb (callbacks_of b t)) eqn:Hin; [done|].
  apply py_in_false in Hin. cbn [state]. apply duplicate_free_set; [done|].
  apply NoDup_app. split_and!; [apply Hb| |apply NoDup_singleton].
  intros x Hx Hcb. apply list_elem_of_singleton in Hcb. by subst.
Qed.

Lemma duplicate_free_unsubscribe t cb b :
  duplicate_free b -> duplicate_free (state (SimpleMessageBus.unsubscribe t cb b)).
Proof.
  intros Hb. rewrite simple_unsubscribe_eq.
  destruct (decide (cb ∈ callbacks_of b t)) as [Hin|Hno].
  - rewrite py_remove_present by done. cbn [state].
    apply duplicate_free_set; [done|]. apply NoDup_remove_first, Hb.
  - rewrite py_remove_absent by done. by apply duplicate_free_touch.
Qed.

Lemma duplicate_free_discard t cb b :
  duplicate_free b -> duplicate_free (state (SimpleMessageBus.discard t cb b)).
Proof.
  intros Hb. rewrite simple_discard_eq.
  destruct (decide (cb ∈ callbacks_of b t)) as [Hin|Hno].
  - rewrite py_remove_present by done. cbn [state].
    apply duplicate_free_set; [done|]. apply NoDup_remove_first, Hb.
  - rewrite py_remove_absent by done. by apply duplicate_free_touch.
Qed.

(** Built by [__init__] and changed through its methods, a simple bus
    never holds a callback twice under a type and never holds a callback
    under a type it was not built with, as long as the callbacks run by
    [broadcast] see to the same. *)
Theorem simple_bus_stays_tidy (call : SimpleCallbacks) (fuel : nat) :
  let tidy := fun b => only_known_types b /\ duplicate_free b in
  (forall cb args, keeps tidy (call cb args)) ->
  (forall types, tidy (SimpleMessageBus.init types)) /\
  (forall t cb, keeps tidy (SimpleMessageBus.subscribe t cb)) /\
  (forall t cb, keeps tidy (SimpleMessageBus.unsubscribe t cb)) /\
  (forall t cb, keeps tidy (SimpleMessageBus.discard t cb)) /\
  (forall t args, keeps tidy (SimpleMessageBus.broadcast call fuel t args)).
Proof.
  intros tidy Hcall. split_and!.
  - intros types. split; [apply only_known_types_init|apply duplicate_free_init].
  - intros t cb b [Hk Hd].
    split; [by apply only_known_types_subscribe|by apply duplicate_free_subscribe].
  - intros t cb b [Hk Hd].
    split; [by apply only_known_types_unsubscribe|by apply duplicate_free_unsubscribe].
  - intros t cb b [Hk Hd].
    split; [by apply only_known_types_discard|by apply duplicate_free_discard].
  - intros t args. apply keeps_bind; [apply keeps_gets|]. intros known.
    destruct (negb known); [apply keeps_ret|].
    apply keeps_bind.
    + intros b [Hk Hd]. rewrite callbacks_getitem_eq. cbn [state]. split.
      * intros t'. rewrite callbacks_of_touch. apply Hk.
      * by apply duplicate_free_touch.
    + intros _. apply keeps_for_in. intros cb.
      apply keeps_bind; [apply keeps_tell|]. intros _. apply Hcall.
Qed.

Lemma simple_bus_stays_tidy_witness :
  (forall cb args,
     keeps (fun b => only_known_types b /\ duplicate_free b)
       (simple_unsubscribes_itself cb args)) /\
  only_known_types simple_bus_with_two /\ duplicate_free simple_bus_with_two.
Proof.
  assert (forall cb args,
            keeps (fun b => only_known_types b /\ duplicate_free b)
              (simple_unsubscribes_itself cb args)) as Hcall.
  { intros cb args b [Hk Hd]. unfold simple_unsubscribes_itself.
    destruct (cb =? 1); [|done].
    split; [by apply only_known_types_unsubscribe
           |by apply duplicate_free_unsubscribe]. }
  split; [exact Hcall|].
  destruct (simple_bus_stays_tidy simple_unsubscribes_itself 5 Hcall)
    as (Hinit & Hsub & _).
  apply (Hsub "foo" 2), (Hsub "foo" 1), Hinit.
Defined.

(** On a simple bus that holds no callback twice, a callback that was
    discarded or unsubscribed is gone: the next broadcast of the type does
    not invoke it, while the other callbacks of the type are invoked as
    before, in the same order. *)
Theorem discarded_callback_is_not_invoked
  (call : SimpleCallbacks) (fuel : nat) (type : string) (args : list Z)
  (cb : nat) (sb : SimpleBus) :
  duplicate_free sb ->
  quiet call ->
  type ∈ _message_types sb ->
  length (callbacks_of sb type) < fuel ->
  let o := SimpleMessageBus.broadcast call fuel type args
             (state (SimpleMessageBus.discard type cb sb)) in
  result o = Ok tt /\
  ((cb, args) ∉ calls o) /\
  calls o = map (fun c => (c, args))
              (filter (fun c => c <> cb) (callbacks_of sb type)) /\
  (cb ∈ callbacks_of sb type ->
   state (SimpleMessageBus.unsubscribe type cb sb)
   = state (SimpleMessageBus.discard type cb sb)).
Proof.
  intros Hd Hq Hknown Hfuel. cbv zeta.
  set (sb' := state (SimpleMessageBus.discard type cb sb)).
  assert (callbacks_of sb' type = remove_first cb (callbacks_of sb type)) as Hlist.
  { unfold sb'. rewrite simple_discard_eq.
    destruct (decide (cb ∈ callbacks_of sb type)) as [Hin|Hno].
    - rewrite py_remove_present by done. unfold callbacks_of at 1.
      cbn [state with_callbacks _callbacks]. apply dd_peek_insert_eq.
    - rewrite py_remove_absent by done. cbn [state].
      by rewrite callbacks_of_touch, remove_first_absent. }
  assert (_message_types sb' = _message_types sb) as Htypes.
  { unfold sb'. rewrite simple_discard_eq. by destruct (py_remove _ _). }
  assert (length (callbacks_of sb' type) < fuel) as Hfuel'.
  { rewrite Hlist. pose proof (remove_first_length cb (callbacks_of sb type)). lia. }
  rewrite simple_broadcast_quiet by (done || by rewrite Htypes).
  cbn [result calls]. rewrite Hlist, remove_first_filter by apply Hd.
  split_and!; [done| |done|].
  - intros Hin. apply list_elem_of_fmap in Hin as (c & [= <-] & Hc).
    apply list_elem_of_filter in Hc as [Hne _]. done.
  - intros Hin. rewrite simple_unsubscribe_eq. unfold sb'.
    rewrite simple_discard_eq. by rewrite py_remove_present.
Qed.

(** Callback 1 of two is discarded. *)
Lemma discarded_callback_is_not_invoked_witness :
  (duplicate_free simple_bus_with_two /\ quiet simple_silent /\
   "foo" ∈ _message_types simple_bus_with_two /\
   length (callbacks_of simple_bus_with_two "foo") < 5) /\
  calls (SimpleMessageBus.broadcast simple_silent 5 "foo" [42%Z]
           (state (SimpleMessageBus.discard "foo" 1 simple_bus_with_two)))
  = [(2, [42%Z])].
Proof.
  assert (duplicate_free simple_bus_with_two) as Hd.
  { apply duplicate_free_subscribe, duplicate_free_subscribe,
      duplicate_free_init. }
  assert ("foo" ∈ _message_types simple_bus_with_two) as Hknown
    by (vm_compute; apply list_elem_of_here).
  assert (length (callbacks_of simple_bus_with_two "foo") < 5) as Hfuel
    by (vm_compute; lia).
  split; [split_and!; [exact Hd|exact simple_silent_quiet|exact Hknown
                      |exact Hfuel]|].
  destruct (discarded_callback_is_not_invoked simple_silent 5 "foo" [42%Z] 1
              simple_bus_with_two Hd simple_silent_quiet Hknown Hfuel)
    as (_ & _ & Hcalls & _).
  exact Hcalls.
Defined.

(** ** clear *)

(** [clear] throws the backlog of one class away without delivering it:
    no callback runs, the other backlogs and both registries stay, and
    [queue_len] of the class is 0 afterwards.  A callback that subscribes
    globally for the class next is registered and gets nothing replayed,
    whatever the callbacks are. *)
Theorem clear_drops_backlog
  (call : Callbacks) (fuel : nat) (t cb : nat) (b : Bus) :
  0 < fuel ->
  let oc := QueuingMessageBus.clear t b in
  let os := QueuingMessageBus.subscribe_globally call fuel t cb (state oc) in
  (result oc = Ok tt /\ calls oc = [] /\
   (forall t', queue_of (state oc) t' = if decide (t = t') then [] else queue_of b t') /\
   (forall t', global_of (state oc) t' = global_of b t') /\
   (forall p, local_of (state oc) p = local_of b p) /\
   result (QueuingMessageBus.queue_len t (state oc)) = Ok 0) /\
  (result os = Ok tt /\ calls os = [] /\
   global_of (state os) t = global_of b t ++ [cb] /\
   queue_of (state os) t = []).
Proof.
  intros Hfuel. cbv zeta. unfold QueuingMessageBus.clear.
  rewrite (bind_ok_silent _ _ _ _ _ (queue_getitem_eq _ _)).
  cbn [modify result state calls].
  set (b1 := with_queue (<[t := []]>) _).
  assert (forall t', queue_of b1 t' = if decide (t = t') then [] else queue_of b t')
    as Hq1.
  { intros t'. unfold b1, queue_of. cbn [with_queue message_queue].
    rewrite dd_peek_insert. case_decide; [done|]. apply dd_peek_touch. }
  assert (queue_of b1 t = []) as Hq1t by (by rewrite Hq1, decide_True).
  split.
  { rewrite queue_len_eq, Hq1t. by split_and!. }
  unfold QueuingMessageBus.subscribe_globally.
  rewrite (bind_ok_silent _ _ _ _ _ (subscribe_globally_eq _ _ _)).
  destruct fuel as [|fuel]; [lia|]. rewrite drain_step.
  rewrite (bind_ok_silent _ _ _ _ _ (queue_getitem_eq _ _)).
  change (queue_of (with_global _ b1) t) with (queue_of b1 t). rewrite Hq1t.
  cbn [length Nat.eqb ret result state calls].
  split_and!; [done|done| |].
  - unfold global_of at 1. cbn [with_queue with_global global_receivers].
    apply dd_peek_insert_eq.
  - by rewrite queue_of_touch.
Qed.

(** The backlog of two is cleared before callback 1 subscribes. *)
Lemma clear_drops_backlog_witness :
  0 < 5 /\
  calls (QueuingMessageBus.subscribe_globally silent 5 0 1
           (state (QueuingMessageBus.clear 0 backlog_of_two))) = [].
Proof.
  assert (0 < 5) as Hfuel by lia.
  split; [exact Hfuel|].
  destruct (clear_drops_backlog silent 5 0 1 backlog_of_two Hfuel)
    as (_ & _ & Hcalls & _).
  exact Hcalls.
Defined.

(** ** Witnesses for the lookups *)

Lemma silent_blind cb m : blind same_bus (silent cb m).
Proof. intros b b' H. by split_and!. Qed.

Lemma simple_silent_blind cb args : blind same_simple_bus (simple_silent cb args).
Proof. intros b b' H. by split_and!. Qed.

Lemma lookups_leave_no_trace_witness :
  (forall cb m, blind same_bus (silent cb m)) /\
  blind same_bus (QueuingMessageBus.broadcast silent 5 (msg 0 7 100)).
Proof.
  split; [exact silent_blind|].
  destruct (lookups_leave_no_trace silent 5 silent_blind)
    as (_ & _ & _ & _ & _ & _ & _ & Hb & _).
  exact (Hb (msg 0 7 100)).
Defined.

Lemma simple_lookups_leave_no_trace_witness :
  (forall cb args, blind same_simple_bus (simple_silent cb args)) /\
  blind same_simple_bus (SimpleMessageBus.discard "foo" 1).
Proof.
  split; [exact simple_silent_blind|].
  destruct (simple_lookups_leave_no_trace simple_silent 5 simple_silent_blind)
    as (_ & _ & Hd & _).
  exact (Hd "foo" 1).
Defined.

(** ** Replays that never end *)

(** While the messages waiting for a class have no receiver, the loop of
    [subscribe_globally] pops each of them only to queue it again. *)
Lemma drain_without_receivers call fuel t b :
  queue_of b t <> [] ->
  global_of b t = [] ->
  (forall m, m ∈ queue_of b t ->
             msg_class m = t /\ local_of b (t, sender m) = []) ->
  result (QueuingMessageBus.drain call fuel t b) = OutOfFuel.
Proof.
  revert b. induction fuel as [|fuel IH]; intros b Hne Hg Hall; [done|].
  rewrite drain_step.
  rewrite (bind_ok_silent _ _ _ _ _ (queue_getitem_eq _ _)).
  destruct (queue_of b t) as [|m q] eqn:Hq; [done|]. cbn [length Nat.eqb].
  rewrite (bind_ok_silent _ _ _ _ _ (queue_getitem_eq _ _)).
  rewrite queue_of_touch, Hq, bind_modify.
  set (b2 := with_queue (<[t := q]>) _).
  destruct (Hall m) as [Hm Hl]; [apply list_elem_of_here|].
  assert (global_of b2 (msg_class m) = []) as Hg2 by by rewrite Hm.
  assert (local_of b2 (msg_class m, sender m) = []) as Hl2 by by rewrite Hm.
  assert (queue_of b2 t = q) as Hq2.
  { unfold b2, queue_of. cbn [with_queue message_queue]. apply dd_peek_insert_eq. }
  rewrite (bind_ok_silent _ _ _ _ _
             (queuing_broadcast_queues call fuel m b2 Hg2 Hl2)).
  rewrite Hm, Hq2. apply IH.
  - unfold queue_of. cbn [with_queue message_queue].
    rewrite dd_peek_insert_eq. by destruct q.
  - change (global_of (with_queue _ ?x) ?k) with (global_of x k).
    by rewrite global_of_touched.
  - intros m'. unfold queue_of at 1. cbn [with_queue message_queue].
    rewrite dd_peek_insert_eq.
    change (local_of (with_queue _ ?x) ?k) with (local_of x k).
    rewrite local_of_touched. intros Hin. apply Hall.
    apply elem_of_app in Hin as [Hin|Hin].
    + by apply list_elem_of_further.
    + apply list_elem_of_singleton in Hin. rewrite Hin.
      apply list_elem_of_here.
Qed.

Lemma for_in_step {E B : Type} (current : B -> list nat)
  (body : nat -> M E B unit) fuel i b :
  for_in current body (S fuel) i b =
  match current b !! i with
  | None => ret tt b
  | Some cb => bind (body cb) (fun _ => for_in current body fuel (S i)) b
  end.
Proof. reflexivity. Qed.

Lemma broadcast_to_leaver call fuel t cb m b :
  msg_class m = t ->
  global_of b t = [cb] ->
  local_of b (t, sender m) = [] ->
  (forall b0, call cb m b0 = MessageBus.unsubscribe_globally t cb b0) ->
  let o := QueuingMessageBus.broadcast call fuel m b in
  result o = OutOfFuel \/
  (result o = Ok tt /\ global_of (state o) t = [] /\
   (forall k, queue_of (state o) k = queue_of b k) /\
   (forall p, local_of (state o) p = local_of b p)).
Proof.
  intros Hm Hg Hl Hcall. cbv zeta.
  rewrite queuing_broadcast_dispatches by (left; by rewrite Hm, Hg).
  unfold MessageBus.broadcast.
  rewrite (bind_ok_silent _ _ _ _ _ (global_getitem_eq _ _)).
  rewrite Hm. set (b1 := with_global (dd_touch t) b).
  assert (global_of b1 t = [cb]) as Hg1 by (unfold b1; by rewrite global_of_touch).
  assert (MessageBus.invoke call m cb b1 =
          Outcome (Ok tt) (with_global (<[t := []]>) b1) [(cb, m)]) as Hinv.
  { unfold MessageBus.invoke, bind, tell. cbn [result state calls].
    rewrite Hcall.
    rewrite (unsubscribe_globally_registered t cb b1 []);
      [done|by rewrite Hg1; simpl; rewrite decide_True]. }
  assert (global_of (with_global (<[t := []]>) b1) t = []) as Hgone.
  { unfold global_of. cbn [with_global global_receivers].
    apply dd_peek_insert_eq. }
  destruct fuel as [|[|fuel]]; [by left| |].
  - left. unfold bind at 1. rewrite for_in_step, Hg1.
    cbn [lookup list_lookup]. unfold bind. by rewrite Hinv.
  - right.
    assert (for_in (fun self => global_of self t) (MessageBus.invoke call m)
              (S (S fuel)) 0 b1 =
            Outcome (Ok tt) (with_global (<[t := []]>) b1) [(cb, m)]) as Hloop.
    { rewrite for_in_step, Hg1. cbn [lookup list_lookup].
      unfold bind. rewrite Hinv. cbn [result state calls].
      rewrite for_in_step, Hgone. reflexivity. }
    set (b3 := with_local (dd_touch (t, sender m))
                 (with_global (<[t := []]>) b1)).
    assert (local_of b3 (t, sender m) = []) as Hl3.
    { unfold b3. rewrite local_of_touch. exact Hl. }
    rewrite (bind_ok _ _ _ _ _ _ Hloop).
    rewrite (bind_ok_silent _ _ _ _ _ (local_getitem_eq _ _)).
    fold b3. rewrite for_in_step, Hl3.
    cbn [lookup list_lookup ret result state calls].
    split_and!.
    + reflexivity.
    + unfold b3, global_of. cbn [with_local with_global global_receivers].
      apply dd_peek_insert_eq.
    + intros k. reflexivity.
    + intros p. unfold b3. by rewrite local_of_touch.
Qed.

(** A subscriber that unsubscribes itself as soon as it is called never
    gets [subscribe_globally] to return when two or more messages wait
    for its class and nobody else listens: it handles the first message
    and leaves, and from then on the loop pops the next message only for
    [broadcast] to queue it again.  No amount of fuel is enough. *)
Theorem leaving_subscriber_never_returns
  (call : Callbacks) (fuel : nat) (t cb : nat) (m : Message)
  (q : list Message) (b : Bus) :
  queue_of b t = m :: q ->
  q <> [] ->
  global_of b t = [] ->
  (forall m', m' ∈ m :: q ->
              msg_class m' = t /\ local_of b (t, sender m') = []) ->
  (forall m' b0,
     call cb m' b0 = MessageBus.unsubscribe_globally (msg_class m') cb b0) ->
  result (QueuingMessageBus.subscribe_globally call fuel t cb b) = OutOfFuel.
Proof.
  intros Hq Hne Hg Hall Hcall.
  unfold QueuingMessageBus.subscribe_globally.
  rewrite (bind_ok_silent _ _ _ _ _ (subscribe_globally_eq _ _ _)).
  rewrite Hg. cbn [app].
  set (b1 := with_global _ b).
  destruct fuel as [|fuel]; [done|].
  rewrite drain_step.
  rewrite (bind_ok_silent _ _ _ _ _ (queue_getitem_eq _ _)).
  assert (queue_of b1 t = m :: q) as Hq1 by exact Hq.
  rewrite Hq1. cbn [length Nat.eqb].
  rewrite (bind_ok_silent _ _ _ _ _ (queue_getitem_eq _ _)).
  rewrite queue_of_touch, Hq1, bind_modify.
  set (b2 := with_queue (<[t := q]>) _).
  destruct (Hall m) as [Hm Hl]; [apply list_elem_of_here|].
  assert (global_of b2 t = [cb]) as Hg2.
  { unfold b2, b1, global_of. cbn [with_queue with_global global_receivers].
    apply dd_peek_insert_eq. }
  assert (local_of b2 (t, sender m) = []) as Hl2 by exact Hl.
  assert (queue_of b2 t = q) as Hq2.
  { unfold b2, queue_of. cbn [with_queue message_queue].
    apply dd_peek_insert_eq. }
  assert (forall b0, call cb m b0 = MessageBus.unsubscribe_globally t cb b0)
    as Hcall'.
  { intros b0. by rewrite Hcall, Hm. }
  destruct (broadcast_to_leaver call fuel t cb m b2 Hm Hg2 Hl2 Hcall')
    as [Hout|(Hok & Hg3 & Hq3 & Hl3)].
  - unfold bind at 1. by rewrite Hout.
  - unfold bind at 1. rewrite Hok.
    apply drain_without_receivers.
    + by rewrite Hq3, Hq2.
    + exact Hg3.
    + intros m'. rewrite Hq3, Hq2, Hl3. intros Hin.
      apply Hall. by apply list_elem_of_further.
Qed.

Lemma leaving_subscriber_never_returns_witness :
  queue_of backlog_of_two 0 = [msg 0 7 100; msg 0 8 101] /\
  result (QueuingMessageBus.subscribe_globally unsubscribes_itself 100 0 1
            backlog_of_two) = OutOfFuel.
Proof.
  split; [vm_compute; reflexivity|].
  apply (leaving_subscriber_never_returns unsubscribes_itself 100 0 1
           (msg 0 7 100) [msg 0 8 101] backlog_of_two).
  - vm_compute; reflexivity.
  - discriminate.
  - vm_compute; reflexivity.
  - intros m' Hin. apply elem_of_cons in Hin as [->|Hin].
    + split; vm_compute; reflexivity.
    + apply list_elem_of_singleton in Hin as ->.
      split; vm_compute; reflexivity.
  - intros m' b0. reflexivity.
Defined.

(** ** Where callbacks that change the bus break the delivery claims *)

(** C1, where the claim fails.  Two messages of class 0 are broadcast on
    an empty queuing bus and wait; callback 1, which clears the backlog of
    the class when it is called, then subscribes globally.  The replay
    returns normally, but the second message is never given to the new
    callback: the first invocation emptied the backlog it was waiting
    in. *)
Lemma queued_message_can_miss_the_subscriber :
  let m7 := msg 0 7 100 in
  let m := msg 0 8 101 in
  let b := state (QueuingMessageBus.broadcast clears_backlog 5 m7
                    QueuingMessageBus.init) in
  let o1 := QueuingMessageBus.broadcast clears_backlog 5 m b in
  let o2 := QueuingMessageBus.subscribe_globally clears_backlog 5 0 1
              (state o1) in
  (global_of b (msg_class m) = [] /\ local_of b (msg_class m, sender m) = []) /\
  (result o1 = Ok tt /\ queue_of (state o1) 0 = [m7; m]) /\
  result o2 = Ok tt /\
  calls o2 = [(1, m7)] /\
  occurrences (1, m) (calls o2) = 0.
Proof. cbv zeta. vm_compute. by split_and!. Qed.

(** C4, where the claim fails.  Callbacks 1 and 2 are registered globally
    for class 0; callback 1 unsubscribes itself when it is called.  The
    broadcast returns normally and callback 2, registered globally for
    the class of the message before and after, is not invoked. *)
Lemma registered_callback_can_be_skipped :
  let m := msg 0 7 100 in
  let o := MessageBus.broadcast unsubscribes_itself 10 m bus_with_two in
  global_of bus_with_two (msg_class m) = [1; 2] /\
  result o = Ok tt /\
  global_of (state o) (msg_class m) = [2] /\
  calls o = [(1, m)] /\
  occurrences (2, m) (calls o) = 0.
Proof. cbv zeta. vm_compute. by split_and!. Qed.

(** C9, where the claim fails.  Callbacks 1 and 2 are subscribed to
    ["foo"], a type of the bus; callback 1 unsubscribes itself when it is
    called.  The broadcast of ["foo"] returns normally without invoking
    callback 2. *)
Lemma simple_registered_callback_can_be_skipped :
  let o := SimpleMessageBus.broadcast simple_unsubscribes_itself 10
             "foo" [42%Z] simple_bus_with_two in
  _message_types simple_bus_with_two = ["foo"; "bar"]%string /\
  callbacks_of simple_bus_with_two "foo" = [1; 2] /\
  result o = Ok tt /\
  calls o = [(1, [42%Z])] /\
  occurrences (2, [42%Z]) (calls o) = 0.
Proof. cbv zeta. vm_compute. by split_and!. Qed.

(** C10, where the claim fails.  Callback 1, which unsubscribes itself
    when it is called, is registered for class 0; callback 2 then
    subscribes twice and unsubscribes once, so it is still registered.
    The broadcast that follows invokes callback 1 and skips callback 2:
    zero invocations, not one. *)
Lemma surviving_subscription_can_be_skipped :
  let m := msg 0 7 100 in
  let b := state (MessageBus.subscribe_globally 0 1 MessageBus.init) in
  let b2 := state (MessageBus.subscribe_globally 0 2
                     (state (MessageBus.subscribe_globally 0 2 b))) in
  let ou := MessageBus.unsubscribe_globally 0 2 b2 in
  let o := MessageBus.broadcast unsubscribes_itself 10 m (state ou) in
  global_of b2 0 = [1; 2; 2] /\
  (result ou = Ok tt /\ global_of (state ou) 0 = [1; 2]) /\
  result o = Ok tt /\
  calls o = [(1, m)] /\
  occurrences (2, m) (calls o) = 0.
Proof. cbv zeta. vm_compute. by split_and!. Qed.
